(** * The kdump recovery check of [microsoft/testsuites/kdump/kdumpcrash.py]

    [KdumpCrash._check_kdump_result] waits for a crashed VM to come back,
    then polls the dump directory until a vmcore file shows up, the
    incomplete file stops growing, or the time budget is spent.

    The function is a loop around calls to the outside world (the timer,
    [try_connect], [node.execute], [Stat.get_total_size], the serial
    console).  It is embedded here as a transition system: a state is the
    call the function is blocked on together with its local variables, and
    a step consumes the reply to that call and runs the code up to the next
    call.  An execution is the run of the function over the list of replies
    it receives.

    The timer, [log.debug], [node.close] and [time.sleep] are taken to
    return; [try_connect], [node.execute], the size lookup and the serial
    console calls either return or raise. *)

From Stdlib Require Import ZArith Ascii String List Bool Lia DecimalString.
Import ListNotations.

Local Open Scope Z_scope.

(** ** Replies of the outside world *)

(** What a call gives back.  Elapsed time is a Python float in the source;
    the function only compares it with the budget, so an ordered number
    type is enough and [Z] (any fixed unit) is used.  [ok = false] and
    [None] stand for the call raising an exception. *)
Inductive reply : Type :=
| Elapsed (t : Z)                 (* timer.elapsed(False) *)
| Connect (ok : bool)             (* try_connect(...) *)
| Console (ok : bool)             (* serial_console.check_initramfs / get_console_log *)
| Execute (out : option string)   (* node.execute(...).stdout *)
| TotalSize (n : option Z).       (* node.tools[Stat] and stat.get_total_size(...) *)

(** The calls the function makes, in the order it makes them. *)
Inductive call : Type :=
| TimerElapsed
| TryConnect
| LogDebug
| CheckInitramfs
| NodeClose
| FindVmcore
| FindIncomplete
| GetTotalSize (file : string)
| GetConsoleLog
| Sleep (seconds : Z).

(** ** Outcomes *)

(** The exceptions that leave the function.  The two messages that embed a
    size print it in MB, rounded; the size in bytes is kept here. *)
Inductive exn : Type :=
| VmcoreIncomplete (size : Z)  (* "The vmcore file is incomplete with file size ..." *)
| NoVmcoreFound                (* "No vmcore or vmcore-incomplete is found under ..." *)
| TimeoutToDump (size : Z)     (* "Timeout to dump vmcore file. The size of ..." *)
| TimeoutToConnect             (* "Timeout to connect the VM after triggering kdump." *)
| UnboundLocalError            (* a local variable read before any assignment *)
| SerialConsoleError.          (* an exception raised by a serial console call *)

Inductive outcome : Type :=
| Return
| Raise (e : exn).

(** ** Local variables *)

(** [saved_dumpfile_size] and [retries] are assigned on every successful
    connection (lines 381 and 383) before they are read, so their value
    before that is immaterial; [incomplete_file_size] is assigned only at
    line 407 and is [None] until then. *)
Record locals : Type := mkLocals {
  system_disconnected : bool;
  saved_dumpfile_size : Z;
  retries : Z;
  incomplete_file_size : option Z
}.

Definition set_system_disconnected (b : bool) (l : locals) : locals :=
  mkLocals b (saved_dumpfile_size l) (retries l) (incomplete_file_size l).

Definition set_saved_dumpfile_size (n : Z) (l : locals) : locals :=
  mkLocals (system_disconnected l) n (retries l) (incomplete_file_size l).

Definition set_retries (n : Z) (l : locals) : locals :=
  mkLocals (system_disconnected l) (saved_dumpfile_size l) n (incomplete_file_size l).

Definition set_incomplete_file_size (n : Z) (l : locals) : locals :=
  mkLocals (system_disconnected l) (saved_dumpfile_size l) (retries l) (Some n).

(** ** Control points *)

(** The four places where the console log is captured before raising. *)
Inductive failure : Type :=
| Incomplete       (* lines 423-429 *)
| NotFound         (* lines 433-439 *)
| DumpTimeout      (* lines 441-445 *)
| ConnectTimeout.  (* lines 448-449 *)

(** The call the function is blocked on. *)
Inductive pending : Type :=
| AtElapsedOuter                 (* line 360, the condition of the outer loop *)
| AtTryConnect                   (* line 362 *)
| AtCheckInitramfs               (* line 370 *)
| AtFindVmcore                   (* line 389 *)
| AtFindIncomplete               (* line 399 *)
| AtGetTotalSize (file : string) (* lines 406-407 *)
| AtElapsedInner                 (* line 440 *)
| AtConsoleLog (why : failure).  (* lines 423, 433, 441, 448 *)

Definition call_of (p : pending) : call :=
  match p with
  | AtElapsedOuter => TimerElapsed
  | AtTryConnect => TryConnect
  | AtCheckInitramfs => CheckInitramfs
  | AtFindVmcore => FindVmcore
  | AtFindIncomplete => FindIncomplete
  | AtGetTotalSize file => GetTotalSize file
  | AtElapsedInner => TimerElapsed
  | AtConsoleLog _ => GetConsoleLog
  end.

Inductive state : Type :=
| Waiting (p : pending) (l : locals)
| Finished (o : outcome).

(** Python truth value of a string: non-empty. *)
Definition truthy (s : string) : bool :=
  match s with
  | EmptyString => false
  | String _ _ => true
  end.

(** ** The function, one step at a time *)

Section Engine.

(** [self.timeout_of_dump_crash] (800, 1200 or 2000 in [_kdump_test]) and the
    local constant [max_retries] (10 at line 382). *)
Variable timeout_of_dump_crash : Z.
Variable max_retries : Z.

(** Make the calls [pre] and then block on [p]. *)
Definition await (pre : list call) (p : pending) (l : locals) : list call * state :=
  (pre ++ [call_of p], Waiting p l).

(** Lines 447-449, after the outer loop. *)
Definition after_loop (pre : list call) (l : locals) : list call * state :=
  if system_disconnected l then await pre (AtConsoleLog ConnectTimeout) l
  else (pre, Finished Return).

(** Line 360: [while system_disconnected and timer.elapsed(False) < ...];
    the timer is read only when [system_disconnected] holds. *)
Definition loop_head (pre : list call) (l : locals) : list call * state :=
  if system_disconnected l then await pre AtElapsedOuter l
  else after_loop pre l.

(** Lines 408-415: the handler of the [try] around the scan. *)
Definition scan_failed (l : locals) : list call * state :=
  loop_head [LogDebug] (set_system_disconnected true l).

(** Lines 430-439, and 420-429: count a poll without growth. *)
Definition count_retry (why : failure) (l : locals) : list call * state :=
  let l' := set_retries (retries l + 1) l in
  if retries l' >=? max_retries then await [] (AtConsoleLog why) l'
  else await [] AtElapsedInner l'.

(** Lines 416-439, after the [try] block; [found] is the truth value of
    [result.stdout] of the second [find]. *)
Definition after_scan (found : bool) (l : locals) : list call * state :=
  if found then
    match incomplete_file_size l with
    | None => ([], Finished (Raise UnboundLocalError))
    | Some size =>
        if size >? saved_dumpfile_size l then
          await [] AtElapsedInner (set_retries 0 (set_saved_dumpfile_size size l))
        else count_retry Incomplete l
    end
  else count_retry NotFound l.

(** The exception raised once the console log is captured.  The two
    messages that embed the size read [incomplete_file_size]. *)
Definition exception_of (why : failure) (l : locals) : exn :=
  match why with
  | Incomplete =>
      match incomplete_file_size l with
      | Some size => VmcoreIncomplete size
      | None => UnboundLocalError
      end
  | NotFound => NoVmcoreFound
  | DumpTimeout =>
      match incomplete_file_size l with
      | Some size => TimeoutToDump size
      | None => UnboundLocalError
      end
  | ConnectTimeout => TimeoutToConnect
  end.

(** One step: the reply [r] to the pending call, and the code that runs
    until the next call.  [None] when [r] is not a reply to that call. *)
Definition step (p : pending) (l : locals) (r : reply) : option (list call * state) :=
  match p, r with
  | AtElapsedOuter, Elapsed t =>
      if t <? timeout_of_dump_crash then Some (await [] AtTryConnect l)
      else Some (after_loop [] l)
  | AtTryConnect, Connect true =>
      (* lines 377-383 *)
      Some (await [NodeClose] AtFindVmcore
              (set_retries 0 (set_saved_dumpfile_size 0 (set_system_disconnected false l))))
  | AtTryConnect, Connect false =>
      Some (await [LogDebug] AtCheckInitramfs l)
  | AtCheckInitramfs, Console true =>
      (* lines 373-374 *)
      Some (loop_head [] (set_system_disconnected true l))
  | AtCheckInitramfs, Console false =>
      Some ([], Finished (Raise SerialConsoleError))
  | AtFindVmcore, Execute (Some out) =>
      (* lines 396-397: break *)
      if truthy out then Some (loop_head [] l)
      else Some (await [] AtFindIncomplete l)
  | AtFindVmcore, Execute None => Some (scan_failed l)
  | AtFindIncomplete, Execute (Some out) =>
      if truthy out then Some (await [] (AtGetTotalSize out) l)
      else Some (after_scan false l)
  | AtFindIncomplete, Execute None => Some (scan_failed l)
  | AtGetTotalSize _, TotalSize (Some n) =>
      Some (after_scan true (set_incomplete_file_size n l))
  | AtGetTotalSize _, TotalSize None => Some (scan_failed l)
  | AtElapsedInner, Elapsed t =>
      if t >? timeout_of_dump_crash then Some (await [] (AtConsoleLog DumpTimeout) l)
      else Some (await [Sleep 5] AtFindVmcore l)
  | AtConsoleLog why, Console true =>
      Some ([], Finished (Raise (exception_of why l)))
  | AtConsoleLog _, Console false =>
      Some ([], Finished (Raise SerialConsoleError))
  | _, _ => None
  end.

(** Run from state [st], with the calls [tr] made so far, over the replies
    [script].  Replies left over once the function has finished are unused. *)
Fixpoint run (tr : list call) (st : state) (script : list reply)
  : option (list call * state) :=
  match st, script with
  | Waiting p l, r :: rest =>
      match step p l r with
      | Some (cs, st') => run (tr ++ cs) st' rest
      | None => None
      end
  | _, _ => Some (tr, st)
  end.

(** Lines 356-359. *)
Definition entry_locals : locals := mkLocals true 0 0 None.

Definition check_kdump_result (script : list reply) : option (list call * state) :=
  let (tr, st) := loop_head [] entry_locals in run tr st script.

(** The outcome of an execution, when it has finished. *)
Definition outcome_of (r : option (list call * state)) : option outcome :=
  match r with
  | Some (_, Finished o) => Some o
  | _ => None
  end.

(** The calls made by an execution. *)
Definition calls_of (r : option (list call * state)) : list call :=
  match r with
  | Some (tr, _) => tr
  | None => []
  end.

End Engine.

(** The constant of line 382 and the default budget of line 52. *)
Definition kdump_max_retries : Z := 10.
Definition default_timeout_of_dump_crash : Z := 800.

(** ** Observations and the replies that carry them *)

(** What one poll of the dump directory can see (the spec's
    ArtifactObservation). *)
Inductive observation : Type :=
| ObsNone
| ObsInProgress (size : Z)
| ObsComplete.

Definition vmcore_listing : string := "-rw------- 1 root root 1.2G /var/crash/vmcore".
Definition incomplete_marker : string := "/var/crash/vmcore-incomplete".

(** The replies to the calls of lines 389-407 that show observation [o]. *)
Definition scan (o : observation) : list reply :=
  match o with
  | ObsComplete => [Execute (Some vmcore_listing)]
  | ObsInProgress size =>
      [Execute (Some EmptyString); Execute (Some incomplete_marker); TotalSize (Some size)]
  | ObsNone => [Execute (Some EmptyString); Execute (Some EmptyString)]
  end.

(** A poll that is followed by the deadline comparison of line 440, the
    timer reading [t]. *)
Definition poll (ot : observation * Z) : list reply :=
  scan (fst ot) ++ [Elapsed (snd ot)].

(** An iteration of the outer loop in which [try_connect] raises and the
    initramfs check returns; the timer reads [t] at line 360. *)
Definition failed_attempt (t : Z) : list reply :=
  [Elapsed t; Connect false; Console true].

(** An iteration of the outer loop in which [try_connect] returns. *)
Definition connection (t : Z) : list reply :=
  [Elapsed t; Connect true].

Definition MB : Z := 1024 * 1024.

(** ** Phases and well-formed call sequences *)

(** The control points between a successful [try_connect] and the end of
    the inner loop. *)
Definition connected_phase (p : pending) : bool :=
  match p with
  | AtFindVmcore | AtFindIncomplete | AtGetTotalSize _ | AtElapsedInner => true
  | AtConsoleLog Incomplete | AtConsoleLog NotFound | AtConsoleLog DumpTimeout => true
  | AtElapsedOuter | AtTryConnect | AtCheckInitramfs | AtConsoleLog ConnectTimeout => false
  end.

(** [system_disconnected] is false exactly in the connected phase. *)
Definition consistent (st : state) : Prop :=
  match st with
  | Waiting p l => system_disconnected l = negb (connected_phase p)
  | Finished _ => True
  end.

(** The control points of the scan, lines 389-407, inside the [try]. *)
Definition scanning (p : pending) : bool :=
  match p with
  | AtFindVmcore | AtFindIncomplete | AtGetTotalSize _ => true
  | _ => false
  end.

(** The reply with which the call pending at [p] raises. *)
Definition raising (p : pending) : reply :=
  match p with
  | AtElapsedOuter | AtElapsedInner => Elapsed 0
  | AtTryConnect => Connect false
  | AtCheckInitramfs | AtConsoleLog _ => Console false
  | AtFindVmcore | AtFindIncomplete => Execute None
  | AtGetTotalSize _ => TotalSize None
  end.

(** [follows a b]: call [b] may come right after call [a]. *)
Definition follows (a b : call) : bool :=
  match b, a with
  | Sleep _, TimerElapsed => true
  | Sleep _, _ => false
  | TryConnect, TimerElapsed => true
  | TryConnect, _ => false
  | NodeClose, TryConnect => true
  | NodeClose, _ => false
  | FindVmcore, (NodeClose | Sleep _) => true
  | FindVmcore, _ => false
  | FindIncomplete, FindVmcore => true
  | FindIncomplete, _ => false
  | GetTotalSize _, FindIncomplete => true
  | GetTotalSize _, _ => false
  | _, _ => true
  end.

(** Every call of [cs] follows the one before it, [prev] for the first. *)
Fixpoint chain (prev : call) (cs : list call) : bool :=
  match cs with
  | [] => true
  | c :: cs' => follows prev c && chain c cs'
  end.

(** A call sequence of the function: it starts with the timer and is a
    chain. *)
Definition well_chained (tr : list call) : Prop :=
  match tr with
  | [] => False
  | c :: cs => c = TimerElapsed /\ chain c cs = true
  end.

(** The serial console calls. *)
Definition is_diagnostics (c : call) : bool :=
  match c with
  | CheckInitramfs | GetConsoleLog => true
  | _ => false
  end.

(** The same replies, with every serial console call returning. *)
Definition heal (r : reply) : reply :=
  match r with
  | Console _ => Console true
  | _ => r
  end.

(** Sizes that never increase from one poll to the next. *)
Fixpoint non_increasing (sizes : list Z) : Prop :=
  match sizes with
  | a :: (b :: _) as rest => b <= a /\ non_increasing rest
  | _ => True
  end.

(** What an execution keeps true of the calls made so far: they are well
    chained and end with the pending call. *)
Definition tracked (tr : list call) (st : state) : Prop :=
  well_chained tr /\
  match st with
  | Waiting p _ => last tr TimerElapsed = call_of p
  | Finished _ => True
  end.

(** Replies for a series of polls, each followed by a timer reading. *)
Definition polls (ots : list (observation * Z)) : list reply :=
  flat_map poll ots.

Definition none_polls (ts : list Z) : list reply :=
  polls (map (fun t => (ObsNone, t)) ts).

Definition in_progress_polls (sts : list (Z * Z)) : list reply :=
  polls (map (fun st => (ObsInProgress (fst st), snd st)) sts).

Definition failed_attempts (ts : list Z) : list reply :=
  flat_map failed_attempt ts.

(** The calls of one failed iteration of the outer loop, after the timer
    reading that opens it. *)
Definition attempt_calls : list call :=
  [TryConnect; LogDebug; CheckInitramfs; TimerElapsed].

(** ** Scripts of concrete executions *)

(** The budget and the retry limit of the source. *)
Local Abbreviation kdump :=
  (check_kdump_result default_timeout_of_dump_crash kdump_max_retries).

(** Every timer reading of a script is below the budget [timeout]. *)
Definition readings_below (timeout : Z) (script : list reply) : bool :=
  forallb (fun r => match r with Elapsed t => t <? timeout | _ => true end) script.

(** No connection attempt of a script succeeds. *)
Definition never_connects (script : list reply) : bool :=
  forallb (fun r => match r with Connect ok => negb ok | _ => true end) script.

(** The state an execution is in. *)
Definition state_of (r : option (list call * state)) : option state :=
  option_map snd r.

(** Scenario B of the spec, three polls that see 10MB, and the vmcore
    file at the fourth poll. *)
Definition three_polls_of_10MB : list reply :=
  connection 0 ++ in_progress_polls (repeat (10 * MB, 0) 3%nat).

Definition three_polls_of_10MB_then_vmcore : list reply :=
  three_polls_of_10MB ++ scan ObsComplete.

(** Ten polls that see 10MB, and the vmcore file at the eleventh poll. *)
Definition ten_polls_of_10MB : list reply :=
  connection 0 ++ in_progress_polls (repeat (10 * MB, 0) 10%nat).

Definition ten_polls_of_10MB_then_vmcore : list reply :=
  ten_polls_of_10MB ++ scan ObsComplete.

(** An incomplete file that grows, stops growing, and disappears. *)
Definition marker_disappears : list reply :=
  connection 0 ++ in_progress_polls [(MB, 0); (MB, 0)] ++ none_polls [0].

(** Ten polls that find nothing, all at time 0. *)
Definition ten_empty_polls : list reply :=
  connection 0 ++ none_polls (repeat 0 9%nat) ++ scan ObsNone ++ [Console true].

(** A failed attempt and then a vmcore file, with the initramfs check
    returning and raising. *)
Definition reconnect_with_check_returning : list reply :=
  [Elapsed 0; Connect false; Console true] ++ connection 1 ++ scan ObsComplete.

Definition reconnect_with_check_raising : list reply :=
  [Elapsed 0; Connect false; Console false] ++ connection 1 ++ scan ObsComplete.

(** Ten polls that find nothing, and the console log capture raises. *)
Definition ten_empty_polls_and_capture_raises : list reply :=
  connection 0 ++ none_polls (repeat 0 9%nat) ++ scan ObsNone ++ [Console false].

(** No connection within the budget, and the console log capture raises. *)
Definition no_connection_and_capture_raises : list reply :=
  failed_attempt 0 ++ [Elapsed 800; Console false].

(** A connection late in the budget, an empty dump directory, and the
    budget spent at the first deadline comparison. *)
Definition budget_spent_before_any_marker : list reply :=
  connection 799 ++ scan ObsNone ++ [Elapsed 801; Console true].

(** ** Further vocabulary for executions *)

(** The size returned by the latest size lookup of a script that
    returned, [before] when there is none. *)
Fixpoint last_measured (before : option Z) (script : list reply) : option Z :=
  match script with
  | [] => before
  | TotalSize (Some n) :: rest => last_measured (Some n) rest
  | _ :: rest => last_measured before rest
  end.

(** An observation that lines 416-439 count as a retry when the saved
    size is [saved]. *)
Definition without_growth (saved : Z) (o : observation) : bool :=
  match o with
  | ObsNone => true
  | ObsInProgress size => size <=? saved
  | ObsComplete => false
  end.

(** The exception that ends the inner loop when observation [o] brings
    the counter to the limit. *)
Definition retry_failure (o : observation) : exn :=
  match o with
  | ObsInProgress size => VmcoreIncomplete size
  | _ => NoVmcoreFound
  end.

(** Sizes that grow at every poll, starting above [saved]. *)
Fixpoint growing (saved : Z) (sts : list (Z * Z)) : Prop :=
  match sts with
  | [] => True
  | st :: rest => saved < fst st /\ growing (fst st) rest
  end.

(** The size seen by the last of a series of polls, [saved] when there is
    none. *)
Definition last_size (saved : Z) (sts : list (Z * Z)) : Z :=
  last (map fst sts) saved.

(** The retry counter is between 0 and the limit, and below the limit as
    long as the inner loop goes on. *)
Definition within_limit (limit : Z) (st : state) : Prop :=
  match st with
  | Waiting p l =>
      0 <= retries l <= limit /\ 0 <= saved_dumpfile_size l /\
      match p with
      | AtConsoleLog Incomplete | AtConsoleLog NotFound => retries l = limit
      | _ => retries l < limit
      end
  | Finished _ => True
  end.

(** No console log capture among the calls [tr]. *)
Definition no_capture (tr : list call) : Prop := ~ In GetConsoleLog tr.

(** The console log is captured at most once, as the last call, and only
    on the way to an exception. *)
Definition captured_at_end (tr : list call) (st : state) : Prop :=
  match st with
  | Waiting (AtConsoleLog _) _ =>
      exists tr', tr = tr' ++ [GetConsoleLog] /\ no_capture tr'
  | Waiting _ _ | Finished Return => no_capture tr
  | Finished (Raise e) =>
      (exists tr', tr = tr' ++ [GetConsoleLog] /\ no_capture tr') \/
      (e = SerialConsoleError /\ no_capture tr)
  end.

(** ** The test cases that crash a chosen CPU

    [KdumpCrash._trigger_kdump_on_specified_cpu], lines 451-465, and the
    test cases that call it, lines 93-171. *)

(** [f"{n}"] for a Python int. *)
Definition str_of_int (n : Z) : string := NilZero.string_of_int (Z.to_int n).

(** What [_trigger_kdump_on_specified_cpu] does: it runs [_kdump_test] with
    [self.trigger_kdump_cmd] set, or raises [SkippedException] with the
    expected and the actual number of CPUs. *)
Inductive trigger_outcome : Type :=
| RunKdumpTest (trigger_kdump_cmd : string)
| SkippedCpuCount (expected actual : Z).

Definition trigger_kdump_on_specified_cpu (cpu_num cpu_count : Z) : trigger_outcome :=
  if cpu_count >? cpu_num then
    RunKdumpTest ("taskset -c " ++ str_of_int cpu_num ++ " echo c > /proc/sysrq-trigger")
  else SkippedCpuCount cpu_num cpu_count.

(** [search_space.IntRange(min=..., max=...)] of a [core_count]
    requirement; no [max] is no upper bound. *)
Record int_range : Type := mkRange { range_min : Z; range_max : option Z }.

Definition in_range (r : int_range) (n : Z) : Prop :=
  range_min r <= n /\
  match range_max r with
  | Some m => n <= m
  | None => True
  end.

(** The test cases with a fixed CPU. *)
Inductive cpu_test_case : Type :=
| kdumpcrash_validate_smp
| kdumpcrash_validate_on_cpu32
| kdumpcrash_validate_on_cpu192
| kdumpcrash_validate_on_cpu415.

(** The CPU each of them passes to [_trigger_kdump_on_specified_cpu]. *)
Definition crash_cpu (t : cpu_test_case) : Z :=
  match t with
  | kdumpcrash_validate_smp => 1
  | kdumpcrash_validate_on_cpu32 => 32
  | kdumpcrash_validate_on_cpu192 => 192
  | kdumpcrash_validate_on_cpu415 => 415
  end.

(** The [core_count] of their [node_requirement]. *)
Definition core_count_requirement (t : cpu_test_case) : int_range :=
  match t with
  | kdumpcrash_validate_smp => mkRange 2 (Some 8)
  | kdumpcrash_validate_on_cpu32 => mkRange 33 (Some 192)
  | kdumpcrash_validate_on_cpu192 => mkRange 193 (Some 415)
  | kdumpcrash_validate_on_cpu415 => mkRange 416 None
  end.

(** [kdumpcrash_validate_on_random_cpu], lines 117-123: [draw] is the
    value of [randint(0, cpu_count - 1)], which raises [ValueError] when
    the range is empty. *)
Definition kdumpcrash_validate_on_random_cpu (cpu_count draw : Z)
  : option trigger_outcome :=
  if cpu_count - 1 <? 0 then None
  else Some (trigger_kdump_on_specified_cpu draw cpu_count).

(** ** Storage account names

    [get_storage_account_name] of [lisa/sut_orchestrator/azure/common.py],
    lines 169-172. *)

(** [s[0:n]]. *)
Definition slice_first (n : nat) (s : string) : string :=
  substring 0 n s.

(** [s[-n:]] for a positive [n]. *)
Definition slice_last (n : nat) (s : string) : string :=
  substring (String.length s - n) n s.

Definition get_storage_account_name (subscription_id location : string) : string :=
  let subscription_id_postfix := slice_last 8 subscription_id in
  ("lisas" ++ slice_first 11 location ++ subscription_id_postfix)%string.

(** ** Tags of a git repository

    [Git.get_tag] of [lisa/tools/git.py], lines 201-255. *)

(** The version that [get_version] parses out of [git --version]: the
    pattern of line 30 keeps three numbers, which [VersionInfo] compares
    in order. *)
Definition git_version : Type := (nat * nat * nat)%type.

Definition version_ge (a b : git_version) : bool :=
  let '(a1, a2, a3) := a in
  let '(b1, b2, b3) := b in
  (b1 <? a1)%nat ||
  ((b1 =? a1)%nat && ((b2 <? a2)%nat || ((b2 =? a2)%nat && (b3 <=? a3)%nat))).

(** Lines 209-227: the arguments of the [git] command that lists the
    tags. *)
Definition tag_command (version : git_version) (sort_by contains : string) : string :=
  let sort_arg := if truthy sort_by then ("--sort=" ++ sort_by)%string else EmptyString in
  let contains_arg :=
    if truthy contains then ("--contains " ++ contains)%string else EmptyString in
  if version_ge version (2, 36, 1)%nat || negb (truthy sort_arg) then
    ("--no-pager tag " ++ sort_arg ++ " " ++ contains_arg)%string
  else
    (" --no-pager tag -l " ++ contains_arg ++ " | sort -V")%string.

Inductive tag_result : Type :=
| Tag (name : string)
| ReError          (* re.compile rejects the filter *)
| AssertionError.  (* "could not find any tags with this sort or filter setting" *)

(** Lines 239-255, from the lines of the command's output on: [compile]
    is [re.compile], [None] when it raises, and the function it gives
    tells whether [search] finds a match. *)
Definition select_tag (compile : string -> option (string -> bool))
    (filter : string) (return_last : bool) (tags : list string) : tag_result :=
  let filtered :=
    if truthy filter then
      match compile filter with
      | Some filter_re => Some (List.filter filter_re tags)
      | None => None
      end
    else Some tags in
  match filtered with
  | None => ReError
  | Some [] => AssertionError
  | Some (first :: rest) => Tag (if return_last then last rest first else first)
  end.

(** ** Marketplace images

    [AzureNodeSchema.marketplace], its setter and [get_image_name] of
    [lisa/sut_orchestrator/azure/common.py], lines 48-139. *)

Record AzureVmMarketplaceSchema : Type := mkMarketplace {
  publisher : string;
  offer : string;
  sku : string;
  version : string
}.

(** [marketplace_raw : Optional[Union[Dict[Any, Any], str]]]; a dict is
    the list of its items in insertion order, its values strings. *)
Inductive raw_marketplace : Type :=
| RawNone
| RawStr (s : string)
| RawDict (items : list (string * string)).

Record AzureNodeSchema : Type := mkNode {
  vhd : string;
  marketplace_raw : raw_marketplace;
  _marketplace : option AzureVmMarketplaceSchema
}.

Inductive schema_exn : Type :=
| InvalidMarketplace   (* LisaException "Invalid value for the provided marketplace ..." *)
| ValidationError      (* raised by the schema's load *)
| RawIsNotADict.       (* the assertion of get_image_name *)

(** The value of a call that may assign to fields of [self]. *)
Inductive schema_result (A : Type) : Type :=
| Got (value : A) (self : AzureNodeSchema)
| Failed (e : schema_exn) (self : AzureNodeSchema).

Arguments Got {A} value self.
Arguments Failed {A} e self.

(** [marketplace.to_dict()]. *)
Definition to_dict (m : AzureVmMarketplaceSchema) : list (string * string) :=
  [("publisher", publisher m); ("offer", offer m); ("sku", sku m);
   ("version", version m)]%string.

(** [" ".join(values)]. *)
Fixpoint join_with_space (values : list string) : string :=
  match values with
  | [] => EmptyString
  | [v] => v
  | v :: rest => (v ++ " " ++ join_with_space rest)%string
  end.

Section MarketplaceModel.

(** Which characters are whitespace for [str.strip] and for [\s], what
    [str.lower] makes of a character, and what the schema loads from a
    dict ([None] when it raises). *)
Variable is_space : ascii -> bool.
Variable lower_char : ascii -> ascii.
Variable schema_load : list (string * string) -> option AzureVmMarketplaceSchema.

(** The characters of the pattern of line 103. *)
Definition is_separator (c : ascii) : bool :=
  Ascii.eqb c ":"%char || is_space c.

Fixpoint lower (s : string) : string :=
  match s with
  | EmptyString => EmptyString
  | String c s' => String (lower_char c) (lower s')
  end.

Fixpoint lstrip (s : string) : string :=
  match s with
  | EmptyString => EmptyString
  | String c s' => if is_space c then lstrip s' else s
  end.

Fixpoint rstrip (s : string) : string :=
  match s with
  | EmptyString => EmptyString
  | String c s' =>
      match rstrip s' with
      | EmptyString => if is_space c then EmptyString else String c EmptyString
      | kept => String c kept
      end
  end.

Definition strip (s : string) : string := rstrip (lstrip s).

(** [re.split] on runs of separators: the pieces between the runs, an
    empty piece before a run that opens the string and after one that
    closes it.  [in_run] tells that the previous character was a
    separator. *)
Fixpoint re_split (in_run : bool) (s : string) : list string :=
  match s with
  | EmptyString => [EmptyString]
  | String c s' =>
      if is_separator c then
        if in_run then re_split true s' else EmptyString :: re_split true s'
      else
        match re_split false s' with
        | piece :: pieces => String c piece :: pieces
        | [] => [String c EmptyString]
        end
  end.

(** Lines 73-119, the getter of [marketplace]. *)
Definition marketplace (self : AzureNodeSchema)
  : schema_result (option AzureVmMarketplaceSchema) :=
  match _marketplace self with
  | Some m => Got (Some m) self
  | None =>
      match marketplace_raw self with
      | RawDict items =>
          let lowered := map (fun kv => (fst kv, lower (snd kv))) items in
          match schema_load lowered with
          | Some m =>
              Got (Some m) (mkNode (vhd self) (RawDict (to_dict m)) (Some m))
          | None =>
              Failed ValidationError (mkNode (vhd self) (RawDict lowered) None)
          end
      | RawStr raw =>
          if truthy raw then
            match re_split false (lower (strip raw)) with
            | [a; b; c; d] =>
                let m := mkMarketplace a b c d in
                Got (Some m) (mkNode (vhd self) (RawDict (to_dict m)) (Some m))
            | _ => Failed InvalidMarketplace self
            end
          else Got None self
      | RawNone => Got None self
      end
  end.

(** Lines 121-127, the setter of [marketplace]. *)
Definition set_marketplace (value : option AzureVmMarketplaceSchema)
    (self : AzureNodeSchema) : AzureNodeSchema :=
  match value with
  | None => mkNode (vhd self) RawNone None
  | Some m => mkNode (vhd self) (RawDict (to_dict m)) (Some m)
  end.

(** Lines 129-138. *)
Definition get_image_name (self : AzureNodeSchema) : schema_result string :=
  if truthy (vhd self) then Got (vhd self) self
  else
    match marketplace self with
    | Failed e self' => Failed e self'
    | Got None self' => Got EmptyString self'
    | Got (Some _) self' =>
        match marketplace_raw self' with
        | RawDict items => Got (join_with_space (map snd items)) self'
        | _ => Failed RawIsNotADict self'
        end
    end.

End MarketplaceModel.

(** Strings of separators, and strings without any. *)
Fixpoint all_chars (f : ascii -> bool) (s : string) : bool :=
  match s with
  | EmptyString => true
  | String c s' => f c && all_chars f s'
  end.

(** A non-empty string without any character of the class [sep]. *)
Definition is_field (sep : ascii -> bool) (f : string) : Prop :=
  truthy f = true /\ all_chars (fun c => negb (sep c)) f = true.

(** A non-empty string of characters of the class [sep]. *)
Definition is_run (sep : ascii -> bool) (s : string) : Prop :=
  truthy s = true /\ all_chars sep s = true.

(** Whitespace and lower case for the characters of code point below
    256, as [str.isspace] and [str.lower] have them. *)
Definition latin1_is_space (c : ascii) : bool :=
  let n := nat_of_ascii c in
  ((9 <=? n) && (n <=? 13) || (28 <=? n) && (n <=? 32) || (n =? 133) || (n =? 160))%nat.

Definition latin1_lower (c : ascii) : ascii :=
  let n := nat_of_ascii c in
  if ((65 <=? n) && (n <=? 90) ||
      (192 <=? n) && (n <=? 222) && negb (n =? 215))%nat
  then ascii_of_nat (n + 32)
  else c.

(** [re.compile] for a pattern without special characters: [search]
    finds it anywhere in the tag. *)
Definition compile_literal (pattern : string) : option (string -> bool) :=
  Some (fun tag => match index 0 pattern tag with Some _ => true | None => false end).

(** An account of lines 416-439 in terms of what the polls of one
    connection observe: the largest size seen so far, and the number of
    polls since the last one that showed growth.  [tally_poll] is the
    account after one more poll. *)
Definition tally_poll (sc : Z * Z) (o : observation) : Z * Z :=
  if without_growth (fst sc) o then (fst sc, snd sc + 1)
  else
    match o with
    | ObsInProgress size => (size, 0)
    | _ => sc
    end.

Definition tally (sc : Z * Z) (os : list observation) : Z * Z :=
  fold_left tally_poll os sc.

(** After none of the polls [os] has the number of polls without growth
    reached [limit]. *)
Fixpoint tolerated (limit : Z) (sc : Z * Z) (os : list observation) : bool :=
  match os with
  | [] => true
  | o :: rest =>
      (snd (tally_poll sc o) <? limit) && tolerated limit (tally_poll sc o) rest
  end.

(** Ten polls that find nothing, and the vmcore file in place for the
    eleventh. *)
Definition vmcore_after_ten_empty_polls : list reply :=
  connection 0 ++ none_polls (repeat 0 9%nat) ++ scan ObsNone ++ [Console true] ++
  scan ObsComplete.

(** ** Executions *)

Section Executions.

Variable timeout : Z.
Variable limit : Z.

Local Abbreviation step' := (step timeout limit).
Local Abbreviation run' := (run timeout limit).
Local Abbreviation check := (check_kdump_result timeout limit).

Lemma run_finished tr o script :
  run' tr (Finished o) script = Some (tr, Finished o).
Proof. destruct script; reflexivity. Qed.

Lemma run_nil tr st : run' tr st [] = Some (tr, st).
Proof. destruct st; reflexivity. Qed.

Lemma run_app script1 : forall tr st script2,
  run' tr st (script1 ++ script2) =
  match run' tr st script1 with
  | Some (tr', st') => run' tr' st' script2
  | None => None
  end.
Proof.
  induction script1 as [|r script1 IH]; intros tr st script2.
  - rewrite run_nil. reflexivity.
  - destruct st as [p l|o].
    + simpl. destruct (step' p l r) as [[cs st']|]; [apply IH | reflexivity].
    + simpl. rewrite run_finished. reflexivity.
Qed.

Lemma check_app script1 script2 :
  check (script1 ++ script2) =
  match check script1 with
  | Some (tr, st) => run' tr st script2
  | None => None
  end.
Proof. unfold check_kdump_result. simpl. apply run_app. Qed.

Lemma check_snoc script tr p l r :
  check script = Some (tr, Waiting p l) ->
  check (script ++ [r]) =
  match step' p l r with
  | Some (cs, st') => Some (tr ++ cs, st')
  | None => None
  end.
Proof.
  intros H. rewrite check_app, H. simpl.
  destruct (step' p l r) as [[cs st']|]; [apply run_nil | reflexivity].
Qed.

(** *** The flag and the phase agree *)

Lemma step_consistent p l r cs st' :
  consistent (Waiting p l) ->
  step' p l r = Some (cs, st') ->
  consistent st'.
Proof.
  unfold consistent. intros Hc Hs.
  destruct p as [ | | | | |file| |why]; destruct r as [t|ok|ok|out|n]; simpl in Hs;
    try discriminate;
    repeat match type of Hs with
           | context [match ?x with _ => _ end] => destruct x eqn:?; simpl in Hs
           end;
    try discriminate;
    unfold scan_failed, after_scan, count_retry, loop_head, after_loop, await in *;
    simpl in *;
    repeat match type of Hs with
           | context [match ?x with _ => _ end] => destruct x eqn:?; simpl in Hs
           end;
    try discriminate;
    inversion Hs; subst; simpl in *; try reflexivity; try congruence.
Qed.

Lemma run_consistent script : forall tr st tr' st',
  consistent st ->
  run' tr st script = Some (tr', st') ->
  consistent st'.
Proof.
  induction script as [|r script IH]; intros tr st tr' st' Hc Hr.
  - rewrite run_nil in Hr. inversion Hr; subst. exact Hc.
  - destruct st as [p l|o].
    + simpl in Hr. destruct (step' p l r) as [[cs st1]|] eqn:Hs; [|discriminate].
      eapply IH; [|exact Hr]. eapply step_consistent; eassumption.
    + rewrite run_finished in Hr. inversion Hr; subst. exact Hc.
Qed.

Lemma check_consistent script tr st :
  check script = Some (tr, st) -> consistent st.
Proof.
  unfold check_kdump_result. simpl. intros H.
  eapply run_consistent; [|exact H]. reflexivity.
Qed.

(** *** The shape of the call sequence *)

Lemma last_cons (A : Type) (cs : list A) : forall c d : A,
  last (c :: cs) d = last cs c.
Proof.
  induction cs as [|a cs IH]; intros c d; [reflexivity|].
  change (last (c :: a :: cs) d) with (last (a :: cs) d).
  rewrite (IH a d), (IH a c). reflexivity.
Qed.

Lemma last_app_cons (A : Type) (xs : list A) (y d : A) ys :
  last (xs ++ y :: ys) d = last (y :: ys) d.
Proof.
  revert d. induction xs as [|x xs IH]; intros d; [reflexivity|].
  change ((x :: xs) ++ y :: ys) with (x :: (xs ++ y :: ys)).
  rewrite last_cons, IH, !last_cons. reflexivity.
Qed.

Lemma chain_app cs1 : forall prev cs2,
  chain prev (cs1 ++ cs2) = chain prev cs1 && chain (last cs1 prev) cs2.
Proof.
  induction cs1 as [|c cs1 IH]; intros prev cs2.
  - reflexivity.
  - change (chain prev ((c :: cs1) ++ cs2))
      with (follows prev c && chain c (cs1 ++ cs2)).
    rewrite IH, last_cons. simpl chain. apply andb_assoc.
Qed.

(** The calls made by one step form a chain after the pending call, and
    their last one is the call pending next. *)
Lemma step_chain p l r cs st' :
  step' p l r = Some (cs, st') ->
  chain (call_of p) cs = true /\
  match st' with
  | Waiting p' _ => last cs (call_of p) = call_of p' /\ cs <> []
  | Finished _ => True
  end.
Proof.
  intros Hs.
  destruct p as [ | | | | |file| |why]; destruct r as [t|ok|ok|out|n]; simpl in Hs;
    try discriminate;
    repeat match type of Hs with
           | context [match ?x with _ => _ end] => destruct x eqn:?; simpl in Hs
           end;
    try discriminate;
    unfold scan_failed, after_scan, count_retry, loop_head, after_loop, await in *;
    simpl in *;
    repeat match type of Hs with
           | context [match ?x with _ => _ end] => destruct x eqn:?; simpl in Hs
           end;
    try discriminate;
    inversion Hs; subst; simpl; repeat split; try reflexivity; try discriminate.
Qed.

Lemma well_chained_app tr cs :
  well_chained tr ->
  chain (last tr TimerElapsed) cs = true ->
  well_chained (tr ++ cs).
Proof.
  destruct tr as [|c tr]; [intros []|]. intros [Hc Hch] H.
  rewrite last_cons in H.
  simpl. split; [exact Hc|]. rewrite chain_app, Hch. exact H.
Qed.

Lemma step_tracked tr p l r cs st' :
  tracked tr (Waiting p l) ->
  step' p l r = Some (cs, st') ->
  tracked (tr ++ cs) st'.
Proof.
  intros [Hw Hl] Hs. apply step_chain in Hs. destruct Hs as [Hch Hlast].
  split.
  - apply well_chained_app; [exact Hw|]. rewrite Hl. exact Hch.
  - destruct st' as [p' l'|o]; [|exact I]. destruct Hlast as [Hlast Hne].
    destruct cs as [|c cs]; [congruence|].
    rewrite last_app_cons. rewrite <- Hlast, !last_cons. reflexivity.
Qed.

Lemma run_tracked script : forall tr st tr' st',
  tracked tr st ->
  run' tr st script = Some (tr', st') ->
  tracked tr' st'.
Proof.
  induction script as [|r script IH]; intros tr st tr' st' Ht Hr.
  - rewrite run_nil in Hr. inversion Hr; subst. exact Ht.
  - destruct st as [p l|o].
    + simpl in Hr. destruct (step' p l r) as [[cs st1]|] eqn:Hs; [|discriminate].
      eapply IH; [|exact Hr]. eapply step_tracked; eassumption.
    + rewrite run_finished in Hr. inversion Hr; subst. exact Ht.
Qed.

Lemma check_tracked script tr st :
  check script = Some (tr, st) -> tracked tr st.
Proof.
  unfold check_kdump_result. simpl. intros H.
  eapply run_tracked; [|exact H]. split; simpl; auto.
Qed.

(** In a call sequence of the function, the call right before [c] is one
    that [c] may follow, and [c] is not the first call unless it is the
    timer. *)
Lemma well_chained_split tr pre c post :
  well_chained tr ->
  tr = pre ++ c :: post ->
  (pre = [] /\ c = TimerElapsed) \/
  (exists pre' b, pre = pre' ++ [b] /\ follows b c = true).
Proof.
  intros Hw ->. destruct pre as [|a pre].
  - left. simpl in Hw. tauto.
  - right. simpl in Hw. destruct Hw as [_ Hch].
    rewrite chain_app in Hch. apply andb_true_iff in Hch. destruct Hch as [_ Hch].
    simpl in Hch. apply andb_true_iff in Hch. destruct Hch as [Hf _].
    destruct (@exists_last _ (a :: pre)) as [pre' [b E]]; [discriminate|].
    exists pre', b. split; [exact E|].
    rewrite <- (last_cons _ pre a a), E, last_app_cons in Hf. exact Hf.
Qed.

(** *** Single polls *)

Lemma set_system_disconnected_same l :
  set_system_disconnected (system_disconnected l) l = l.
Proof. destruct l; reflexivity. Qed.

(** A poll that finds a vmcore file leaves both loops and returns. *)
Lemma run_complete tr l listing rest :
  system_disconnected l = false ->
  truthy listing = true ->
  run' tr (Waiting AtFindVmcore l) (Execute (Some listing) :: rest) =
  Some (tr, Finished Return).
Proof.
  intros Hd Ht. simpl. rewrite Ht. unfold loop_head, after_loop. rewrite Hd.
  rewrite run_finished, app_nil_r. reflexivity.
Qed.

Lemma check_complete script tr l listing rest :
  check script = Some (tr, Waiting AtFindVmcore l) ->
  truthy listing = true ->
  check (script ++ Execute (Some listing) :: rest) = Some (tr, Finished Return).
Proof.
  intros H Ht. rewrite check_app, H. apply run_complete; [|exact Ht].
  apply check_consistent in H. exact H.
Qed.

(** A poll that finds nothing, below the retry limit and within the
    budget. *)
Lemma run_none_poll tr l t rest :
  retries l + 1 < limit ->
  t <= timeout ->
  run' tr (Waiting AtFindVmcore l) (poll (ObsNone, t) ++ rest) =
  run' (tr ++ [FindIncomplete; TimerElapsed; Sleep 5; FindVmcore])
       (Waiting AtFindVmcore (set_retries (retries l + 1) l)) rest.
Proof.
  intros Hr Ht. simpl. unfold count_retry. simpl.
  destruct (Z.geb_spec (retries l + 1) limit) as [Hge|_]; [lia|].
  simpl. destruct (Z.gtb_spec t timeout) as [Hgt|_]; [lia|].
  simpl. rewrite <- !app_assoc. reflexivity.
Qed.

(** A poll that finds nothing and brings the counter to the limit. *)
Lemma run_none_last tr l rest :
  limit <= retries l + 1 ->
  run' tr (Waiting AtFindVmcore l) (scan ObsNone ++ Console true :: rest) =
  Some (tr ++ [FindIncomplete; GetConsoleLog], Finished (Raise NoVmcoreFound)).
Proof.
  intros Hr. simpl. unfold count_retry. simpl.
  destruct (Z.geb_spec (retries l + 1) limit) as [_|Hlt]; [|lia].
  simpl. rewrite run_finished, <- !app_assoc, app_nil_r. reflexivity.
Qed.

(** A poll that sees the incomplete file larger than ever before. *)
Lemma run_growth_poll tr l size t rest :
  saved_dumpfile_size l < size ->
  t <= timeout ->
  run' tr (Waiting AtFindVmcore l) (poll (ObsInProgress size, t) ++ rest) =
  run' (tr ++ [FindIncomplete; GetTotalSize incomplete_marker; TimerElapsed;
               Sleep 5; FindVmcore])
       (Waiting AtFindVmcore
          (set_retries 0 (set_saved_dumpfile_size size (set_incomplete_file_size size l))))
       rest.
Proof.
  intros Hs Ht. simpl.
  destruct (Z.gtb_spec size (saved_dumpfile_size l)) as [_|Hle]; [|lia].
  simpl. destruct (Z.gtb_spec t timeout) as [Hgt|_]; [lia|].
  simpl. rewrite <- !app_assoc. reflexivity.
Qed.

(** A poll that sees the incomplete file no larger than before, below the
    retry limit and within the budget. *)
Lemma run_stale_poll tr l size t rest :
  size <= saved_dumpfile_size l ->
  retries l + 1 < limit ->
  t <= timeout ->
  run' tr (Waiting AtFindVmcore l) (poll (ObsInProgress size, t) ++ rest) =
  run' (tr ++ [FindIncomplete; GetTotalSize incomplete_marker; TimerElapsed;
               Sleep 5; FindVmcore])
       (Waiting AtFindVmcore
          (set_retries (retries l + 1) (set_incomplete_file_size size l)))
       rest.
Proof.
  intros Hs Hr Ht. simpl.
  destruct (Z.gtb_spec size (saved_dumpfile_size l)) as [Hgt|_]; [lia|].
  unfold count_retry. simpl.
  destruct (Z.geb_spec (retries l + 1) limit) as [Hge|_]; [lia|].
  simpl. destruct (Z.gtb_spec t timeout) as [Hgt|_]; [lia|].
  simpl. rewrite <- !app_assoc. reflexivity.
Qed.

(** A poll that sees the incomplete file no larger than before and brings
    the counter to the limit. *)
Lemma run_stale_last tr l size rest :
  size <= saved_dumpfile_size l ->
  limit <= retries l + 1 ->
  run' tr (Waiting AtFindVmcore l) (scan (ObsInProgress size) ++ Console true :: rest) =
  Some (tr ++ [FindIncomplete; GetTotalSize incomplete_marker; GetConsoleLog],
        Finished (Raise (VmcoreIncomplete size))).
Proof.
  intros Hs Hr. simpl.
  destruct (Z.gtb_spec size (saved_dumpfile_size l)) as [Hgt|_]; [lia|].
  unfold count_retry. simpl.
  destruct (Z.geb_spec (retries l + 1) limit) as [_|Hlt]; [|lia].
  simpl. rewrite run_finished, <- !app_assoc, app_nil_r. reflexivity.
Qed.

(** *** Series of polls and of connection attempts *)

Lemma set_retries_add_0 l : set_retries (retries l + 0) l = l.
Proof. destruct l. unfold set_retries. simpl. rewrite Z.add_0_r. reflexivity. Qed.

Lemma run_none_polls ts : forall tr l rest,
  Forall (fun t => t <= timeout) ts ->
  retries l + Z.of_nat (length ts) < limit ->
  exists tr',
    run' tr (Waiting AtFindVmcore l) (none_polls ts ++ rest) =
    run' tr' (Waiting AtFindVmcore (set_retries (retries l + Z.of_nat (length ts)) l)) rest.
Proof.
  induction ts as [|t ts IH]; intros tr l rest Hts Hr.
  - exists tr. simpl. rewrite set_retries_add_0. reflexivity.
  - inversion Hts as [|t' ts' Ht Hts']; subst.
    change (none_polls (t :: ts)) with (poll (ObsNone, t) ++ none_polls ts).
    rewrite <- app_assoc.
    change (length (t :: ts)) with (S (length ts)) in *.
    rewrite run_none_poll by lia.
    destruct (IH (tr ++ [FindIncomplete; TimerElapsed; Sleep 5; FindVmcore])
                 (set_retries (retries l + 1) l) rest Hts') as [tr' E].
    + simpl. lia.
    + exists tr'. rewrite E. unfold set_retries. simpl.
      do 3 f_equal. lia.
Qed.

Lemma run_stale_polls sts : forall tr l rest,
  Forall (fun st => fst st <= saved_dumpfile_size l /\ snd st <= timeout) sts ->
  retries l + Z.of_nat (length sts) < limit ->
  exists tr' l',
    run' tr (Waiting AtFindVmcore l) (in_progress_polls sts ++ rest) =
    run' tr' (Waiting AtFindVmcore l') rest /\
    retries l' = retries l + Z.of_nat (length sts) /\
    saved_dumpfile_size l' = saved_dumpfile_size l.
Proof.
  induction sts as [|[size t] sts IH]; intros tr l rest Hsts Hr.
  - exists tr, l. simpl. repeat split. lia.
  - inversion Hsts as [|st sts' [Hs Ht] Hsts']; subst. simpl in Hs, Ht.
    change (in_progress_polls ((size, t) :: sts))
      with (poll (ObsInProgress size, t) ++ in_progress_polls sts).
    rewrite <- app_assoc.
    change (length ((size, t) :: sts)) with (S (length sts)) in *.
    rewrite run_stale_poll by lia.
    destruct (IH (tr ++ [FindIncomplete; GetTotalSize incomplete_marker; TimerElapsed;
                         Sleep 5; FindVmcore])
                 (set_retries (retries l + 1) (set_incomplete_file_size size l))
                 rest) as [tr' [l' [E [Hr' Hs']]]].
    + exact Hsts'.
    + simpl. lia.
    + exists tr', l'. rewrite E. simpl in Hr', Hs'. repeat split; [lia | exact Hs'].
Qed.

(** Iterations of the outer loop in which the connection fails and the
    initramfs check returns, all begun within the budget. *)
Lemma run_failed_attempts ts : forall tr l rest,
  system_disconnected l = true ->
  Forall (fun t => t < timeout) ts ->
  run' tr (Waiting AtElapsedOuter l) (failed_attempts ts ++ rest) =
  run' (tr ++ flat_map (fun _ => attempt_calls) ts) (Waiting AtElapsedOuter l) rest.
Proof.
  induction ts as [|t ts IH]; intros tr l rest Hd Hts.
  - simpl. rewrite app_nil_r. reflexivity.
  - inversion Hts as [|t' ts' Ht Hts']; subst. simpl.
    destruct (Z.ltb_spec t timeout) as [_|Hge]; [|lia].
    destruct l as [d s r i]. simpl in Hd. subst d. simpl.
    change (flat_map failed_attempt ts) with (failed_attempts ts).
    rewrite IH by (try reflexivity; exact Hts').
    rewrite <- !app_assoc. reflexivity.
Qed.

(** An iteration of the outer loop in which the connection succeeds. *)
Lemma run_connection tr l t rest :
  t < timeout ->
  run' tr (Waiting AtElapsedOuter l) (connection t ++ rest) =
  run' (tr ++ [TryConnect; NodeClose; FindVmcore])
       (Waiting AtFindVmcore
          (set_retries 0 (set_saved_dumpfile_size 0 (set_system_disconnected false l))))
       rest.
Proof.
  intros Ht. simpl. destruct (Z.ltb_spec t timeout) as [_|Hge]; [|lia].
  simpl. rewrite <- !app_assoc. reflexivity.
Qed.

Lemma check_unfold script :
  check script = run' [TimerElapsed] (Waiting AtElapsedOuter entry_locals) script.
Proof. reflexivity. Qed.

Lemma non_increasing_le_head sizes : forall a,
  non_increasing (a :: sizes) -> Forall (fun x => x <= a) sizes.
Proof.
  induction sizes as [|b sizes IH]; intros a H; [constructor|].
  destruct H as [Hba H]. constructor; [exact Hba|].
  apply IH in H. eapply Forall_impl; [|exact H]. simpl. intros x Hx. lia.
Qed.

(** ** Properties of the function *)

(** C4 (amended).  A poll that finds nothing ends the session only by
    bringing the retry counter to [max_retries]: while the counter stays
    below it and the timer readings stay within the budget the function
    keeps polling, and the poll that makes the counter reach [max_retries]
    is followed by the console log capture and the "No vmcore or
    vmcore-incomplete is found" exception, deadline or not. *)
Theorem none_polls_until_max_retries script tr l :
  check_kdump_result timeout limit script = Some (tr, Waiting AtFindVmcore l) ->
  (forall ts,
     Forall (fun t => t <= timeout) ts ->
     retries l + Z.of_nat (length ts) < limit ->
     exists tr',
       check_kdump_result timeout limit (script ++ none_polls ts) =
       Some (tr', Waiting AtFindVmcore
                    (set_retries (retries l + Z.of_nat (length ts)) l))) /\
  (forall ts rest,
     Forall (fun t => t <= timeout) ts ->
     retries l + Z.of_nat (length ts) + 1 = limit ->
     outcome_of
       (check_kdump_result timeout limit
          (script ++ none_polls ts ++ scan ObsNone ++ Console true :: rest)) =
     Some (Raise NoVmcoreFound)).
Proof.
  intros H. split.
  - intros ts Hts Hr. rewrite check_app, H.
    destruct (run_none_polls ts tr l [] Hts Hr) as [tr' E].
    rewrite app_nil_r in E. rewrite E, run_nil. eauto.
  - intros ts rest Hts Hr. rewrite check_app, H.
    destruct (run_none_polls ts tr l (scan ObsNone ++ Console true :: rest) Hts)
      as [tr' E]; [lia|].
    rewrite E, run_none_last by (simpl; lia). reflexivity.
Qed.

(** C6.  An exception of a scan command (either [find], or the size
    lookup) is not counted as a poll and raises nothing: the flag
    [system_disconnected] is set, the inner loop is left and the condition
    of the outer loop is evaluated again, the locals otherwise unchanged.
    Within the budget the function then reconnects, through any number of
    failed attempts, and starts polling afresh; and whenever a poll after
    the exception finds the vmcore file, the function returns normally. *)
Theorem scan_exception_reconnects script tr p l :
  check_kdump_result timeout limit script = Some (tr, Waiting p l) ->
  scanning p = true ->
  check_kdump_result timeout limit (script ++ [raising p]) =
    Some (tr ++ [LogDebug; TimerElapsed],
          Waiting AtElapsedOuter (set_system_disconnected true l)) /\
  (forall ts t,
     Forall (fun t' => t' < timeout) ts ->
     t < timeout ->
     exists tr',
       check_kdump_result timeout limit
         (script ++ raising p :: failed_attempts ts ++ connection t) =
       Some (tr', Waiting AtFindVmcore
                    (set_retries 0 (set_saved_dumpfile_size 0 l)))) /\
  (forall later tr' l' listing rest,
     check_kdump_result timeout limit (script ++ raising p :: later) =
       Some (tr', Waiting AtFindVmcore l') ->
     truthy listing = true ->
     outcome_of
       (check_kdump_result timeout limit
          (script ++ raising p :: later ++ Execute (Some listing) :: rest)) =
     Some Return).
Proof.
  intros H Hp.
  assert (Hstep : step' p l (raising p) =
                  Some ([LogDebug; TimerElapsed],
                        Waiting AtElapsedOuter (set_system_disconnected true l))).
  { destruct p; try discriminate; reflexivity. }
  split; [|split].
  - rewrite (check_snoc _ _ _ _ _ H), Hstep. reflexivity.
  - intros ts t Hts Ht. rewrite <- (app_nil_r (connection t)).
    rewrite check_app, H. simpl run. rewrite Hstep.
    rewrite run_failed_attempts by (try reflexivity; exact Hts).
    change [Elapsed t; Connect true] with (connection t ++ []).
    rewrite run_connection by exact Ht. rewrite run_nil.
    pose proof (check_consistent _ _ _ H) as Hc. simpl in Hc.
    assert (Hd : system_disconnected l = false)
      by (destruct p; try discriminate; exact Hc).
    eexists. destruct l as [d s r i]. simpl in Hd. subst d. reflexivity.
  - intros later tr' l' listing rest Hl Ht.
    change (script ++ raising p :: later ++ Execute (Some listing) :: rest)
      with (script ++ (raising p :: later) ++ Execute (Some listing) :: rest).
    rewrite app_assoc.
    rewrite (check_complete _ tr' l' listing rest); [reflexivity | exact Hl | exact Ht].
Qed.

(** C2 (amended).  The first sighting of an incomplete file of positive
    size counts as growth (the saved size starts at 0).  When the next
    [max_retries] polls see sizes that never increase, all but the last of
    them followed by a timer reading within the budget, the last of them is
    followed by the console log capture and the "vmcore file is incomplete"
    exception, which carries the size seen last. *)
Theorem stall_after_max_retries_polls t0 s0 t1 mids sn rest :
  t0 < timeout ->
  0 < s0 ->
  t1 <= timeout ->
  Forall (fun st => snd st <= timeout) mids ->
  non_increasing (s0 :: map fst mids ++ [sn]) ->
  Z.of_nat (length mids) + 1 = limit ->
  outcome_of
    (check_kdump_result timeout limit
       (connection t0 ++ poll (ObsInProgress s0, t1) ++ in_progress_polls mids ++
        scan (ObsInProgress sn) ++ Console true :: rest)) =
  Some (Raise (VmcoreIncomplete sn)).
Proof.
  intros Ht0 Hs0 Ht1 Hts Hsizes Hlen.
  apply non_increasing_le_head in Hsizes.
  apply Forall_app in Hsizes. destruct Hsizes as [Hmids Hsn].
  apply Forall_inv in Hsn.
  rewrite check_unfold, run_connection by exact Ht0.
  rewrite run_growth_poll by (simpl; lia).
  match goal with
  | |- context [run' ?tr0 (Waiting AtFindVmcore ?l0) _] =>
      destruct (run_stale_polls mids tr0 l0
                  (scan (ObsInProgress sn) ++ Console true :: rest))
        as [tr' [l' [E [Hr' Hs']]]]
  end.
  - simpl. rewrite Forall_forall in *. intros st Hin. split.
    + apply Hmids. apply in_map. exact Hin.
    + apply Hts. exact Hin.
  - simpl. lia.
  - rewrite E. simpl in Hr', Hs'.
    rewrite run_stale_last by lia. reflexivity.
Qed.

Lemma step_heal p l r :
  step' p l (heal r) = step' p l r \/
  step' p l r = Some ([], Finished (Raise SerialConsoleError)).
Proof.
  destruct r as [t|ok|[|]|out|n]; try (left; reflexivity).
  destruct p; try (left; reflexivity); right; reflexivity.
Qed.

Lemma run_heal script : forall tr st,
  run' tr st script = run' tr st (map heal script) \/
  outcome_of (run' tr st script) = Some (Raise SerialConsoleError).
Proof.
  induction script as [|r script IH]; intros tr st.
  - left. reflexivity.
  - destruct st as [p l|o]; [|left; reflexivity].
    simpl. destruct (step_heal p l r) as [E|E]; rewrite E.
    + destruct (step' p l r) as [[cs st']|]; [apply IH | left; reflexivity].
    + right. rewrite run_finished. reflexivity.
Qed.

(** C5 (amended).  An exception of a serial console call is not caught:
    raised by the initramfs check or by a console log capture, it leaves
    [_check_kdump_result] at once in place of any verdict.  Every execution
    either ends this way or behaves exactly as the same execution with all
    serial console calls returning. *)
Theorem console_error_propagates :
  (forall script tr p l rest,
     check_kdump_result timeout limit script = Some (tr, Waiting p l) ->
     is_diagnostics (call_of p) = true ->
     check_kdump_result timeout limit (script ++ Console false :: rest) =
     Some (tr, Finished (Raise SerialConsoleError))) /\
  (forall script,
     check_kdump_result timeout limit script =
     check_kdump_result timeout limit (map heal script) \/
     outcome_of (check_kdump_result timeout limit script) =
     Some (Raise SerialConsoleError)).
Proof.
  split.
  - intros script tr p l rest H Hp. rewrite check_app, H.
    destruct p; try discriminate; simpl; rewrite run_finished, app_nil_r; reflexivity.
  - intros script. apply run_heal.
Qed.

(** C7 (amended).  When every connection attempt fails, each begun within
    the budget and each followed by an initramfs check that returns, the
    first timer reading at or past the budget ends the outer loop; the
    console log is then captured and, when that capture returns, the
    "Timeout to connect the VM" exception is raised.  No other call is made,
    and the console log capture is made whether or not it returns. *)
Theorem never_connected_times_out ts t rest :
  Forall (fun t' => t' < timeout) ts ->
  timeout <= t ->
  let tr := TimerElapsed :: flat_map (fun _ => attempt_calls) ts ++ [GetConsoleLog] in
  check_kdump_result timeout limit
    (failed_attempts ts ++ Elapsed t :: Console true :: rest) =
    Some (tr, Finished (Raise TimeoutToConnect)) /\
  check_kdump_result timeout limit
    (failed_attempts ts ++ Elapsed t :: Console false :: rest) =
    Some (tr, Finished (Raise SerialConsoleError)) /\
  In GetConsoleLog tr.
Proof.
  intros Hts Ht tr. repeat split.
  - rewrite check_unfold, run_failed_attempts by (try reflexivity; exact Hts).
    simpl. destruct (Z.ltb_spec t timeout) as [Hlt|_]; [lia|].
    simpl. rewrite run_finished, app_nil_r. reflexivity.
  - rewrite check_unfold, run_failed_attempts by (try reflexivity; exact Hts).
    simpl. destruct (Z.ltb_spec t timeout) as [Hlt|_]; [lia|].
    simpl. rewrite run_finished, app_nil_r. reflexivity.
  - right. apply in_or_app. right. left. reflexivity.
Qed.

(** C8.  Every [time.sleep] and every [try_connect] comes right after a
    reading of the timer, and every poll starts right after a reading of
    the timer followed by a connection and the close of the node, or by a
    sleep: no iteration of either loop begins without the deadline
    comparison having been made since the last one.  A reading at or past
    the budget in the condition of the outer loop, or past the budget in
    the inner loop, is followed by the console log capture alone, after
    which the function raises. *)
Theorem deadline_checked_every_iteration script tr st :
  check_kdump_result timeout limit script = Some (tr, st) ->
  (forall pre n post, tr = pre ++ Sleep n :: post ->
     exists pre', pre = pre' ++ [TimerElapsed]) /\
  (forall pre post, tr = pre ++ TryConnect :: post ->
     exists pre', pre = pre' ++ [TimerElapsed]) /\
  (forall pre post, tr = pre ++ FindVmcore :: post ->
     exists pre',
       pre = pre' ++ [TimerElapsed; TryConnect; NodeClose] \/
       exists n, pre = pre' ++ [TimerElapsed; Sleep n]) /\
  (forall l t, st = Waiting AtElapsedOuter l -> timeout <= t ->
     check_kdump_result timeout limit (script ++ [Elapsed t]) =
     Some (tr ++ [GetConsoleLog], Waiting (AtConsoleLog ConnectTimeout) l)) /\
  (forall l t, st = Waiting AtElapsedInner l -> timeout < t ->
     check_kdump_result timeout limit (script ++ [Elapsed t]) =
     Some (tr ++ [GetConsoleLog], Waiting (AtConsoleLog DumpTimeout) l)) /\
  (forall why l ok rest, st = Waiting (AtConsoleLog why) l ->
     exists e,
       check_kdump_result timeout limit (script ++ Console ok :: rest) =
       Some (tr, Finished (Raise e))).
Proof.
  intros H. pose proof (check_tracked _ _ _ H) as [Hw _].
  repeat split.
  - intros pre n post E.
    destruct (well_chained_split _ _ _ _ Hw E) as [[_ Hc]|[pre' [b [Hpre Hf]]]];
      [discriminate|].
    exists pre'. destruct b; try discriminate. exact Hpre.
  - intros pre post E.
    destruct (well_chained_split _ _ _ _ Hw E) as [[_ Hc]|[pre' [b [Hpre Hf]]]];
      [discriminate|].
    exists pre'. destruct b; try discriminate. exact Hpre.
  - intros pre post E.
    destruct (well_chained_split _ _ _ _ Hw E) as [[_ Hc]|[pre1 [b [Hpre Hf]]]];
      [discriminate|].
    subst pre. rewrite <- app_assoc in E. simpl in E.
    destruct (well_chained_split _ _ _ _ Hw E) as [[_ Hb]|[pre2 [c [Hpre2 Hf2]]]];
      [subst b; discriminate|].
    subst pre1. destruct b; try discriminate.
    + destruct c; try discriminate.
      rewrite <- app_assoc in E. simpl in E.
      destruct (well_chained_split _ _ _ _ Hw E) as [[_ Hc]|[pre3 [d [Hpre3 Hf3]]]];
        [discriminate|].
      subst pre2. destruct d; try discriminate.
      exists pre3. left. rewrite <- !app_assoc. reflexivity.
    + destruct c; try discriminate.
      exists pre2. right. exists seconds. rewrite <- !app_assoc. reflexivity.
  - intros l t -> Ht. rewrite (check_snoc _ _ _ _ _ H). simpl.
    destruct (Z.ltb_spec t timeout) as [Hlt|_]; [lia|].
    apply check_consistent in H. simpl in H. unfold after_loop. rewrite H. reflexivity.
  - intros l t -> Ht. rewrite (check_snoc _ _ _ _ _ H). simpl.
    destruct (Z.gtb_spec t timeout) as [_|Hle]; [|lia]. reflexivity.
  - intros why l ok rest ->. rewrite check_app, H. simpl.
    destruct ok; rewrite run_finished, app_nil_r; eauto.
Qed.

(** C9.  The lookup of the incomplete file is only ever issued right after
    the lookup of the vmcore file, and only when that one printed nothing:
    when it prints a file the function returns without making another call,
    whatever the later lookups would have answered. *)
Theorem vmcore_lookup_comes_first script tr st :
  check_kdump_result timeout limit script = Some (tr, st) ->
  (forall pre post, tr = pre ++ FindIncomplete :: post ->
     exists pre', pre = pre' ++ [FindVmcore]) /\
  (forall l listing rest, st = Waiting AtFindVmcore l -> truthy listing = true ->
     check_kdump_result timeout limit (script ++ Execute (Some listing) :: rest) =
     Some (tr, Finished Return)) /\
  (forall l out, st = Waiting AtFindVmcore l -> truthy out = false ->
     check_kdump_result timeout limit (script ++ [Execute (Some out)]) =
     Some (tr ++ [FindIncomplete], Waiting AtFindIncomplete l)).
Proof.
  intros H. pose proof (check_tracked _ _ _ H) as [Hw _].
  repeat split.
  - intros pre post E.
    destruct (well_chained_split _ _ _ _ Hw E) as [[_ Hc]|[pre' [b [Hpre Hf]]]];
      [discriminate|].
    exists pre'. destruct b; try discriminate. exact Hpre.
  - intros l listing rest -> Ht. apply (check_complete _ _ l); assumption.
  - intros l out -> Ht. rewrite (check_snoc _ _ _ _ _ H). simpl. rewrite Ht. reflexivity.
Qed.

(** ** Further properties of [_check_kdump_result] *)

(** Case analysis of one step. *)
Ltac step_cases Hs :=
  repeat match type of Hs with
         | context [match ?x with _ => _ end] => destruct x eqn:?; simpl in Hs
         end;
  try discriminate.

Lemma step_within_limit p l r cs st' :
  1 <= limit ->
  within_limit limit (Waiting p l) ->
  step' p l r = Some (cs, st') ->
  within_limit limit st'.
Proof.
  intros Hlim [Hr [Hs Hp]] Hstep.
  destruct p as [ | | | | |file| |why]; destruct r as [t|ok|ok|out|n];
    simpl in Hstep; try discriminate; step_cases Hstep;
    unfold scan_failed, after_scan, count_retry, loop_head, after_loop, await in *;
    simpl in *; step_cases Hstep;
    inversion Hstep; subst; simpl; try exact I;
    repeat match goal with
           | H : (_ >=? _) = true |- _ => apply Z.geb_le in H
           | H : (_ >=? _) = false |- _ => rewrite Z.geb_leb in H; apply Z.leb_gt in H
           | H : (_ >? _) = true |- _ => rewrite Z.gtb_ltb in H; apply Z.ltb_lt in H
           | H : (_ >? _) = false |- _ => rewrite Z.gtb_ltb in H; apply Z.ltb_ge in H
           end;
    try (destruct why); try lia.
Qed.

Lemma run_within_limit script : forall tr st tr' st',
  1 <= limit ->
  within_limit limit st ->
  run' tr st script = Some (tr', st') ->
  within_limit limit st'.
Proof.
  induction script as [|r script IH]; intros tr st tr' st' Hlim Hw Hr.
  - rewrite run_nil in Hr. inversion Hr; subst. exact Hw.
  - destruct st as [p l|o].
    + simpl in Hr. destruct (step' p l r) as [[cs st1]|] eqn:Hs; [|discriminate].
      eapply IH; [exact Hlim| |exact Hr]. eapply step_within_limit; eassumption.
    + rewrite run_finished in Hr. inversion Hr; subst. exact Hw.
Qed.

(** X1.  With a limit of at least 1, the retry counter never leaves the
    range from 0 to [max_retries] and the saved size is never negative;
    the counter is below [max_retries] whenever the function is about to
    poll, to compare the deadline or to reconnect, and equals it exactly
    when the console log is captured for one of the two retry failures. *)
Theorem retries_within_limit script tr p l :
  1 <= limit ->
  check_kdump_result timeout limit script = Some (tr, Waiting p l) ->
  within_limit limit (Waiting p l).
Proof.
  intros Hlim H. unfold check_kdump_result in H. simpl in H.
  eapply run_within_limit; [exact Hlim| |exact H].
  simpl. lia.
Qed.

Lemma step_return p l r cs :
  consistent (Waiting p l) ->
  step' p l r = Some (cs, Finished Return) ->
  p = AtFindVmcore /\ cs = [] /\
  exists listing, r = Execute (Some listing) /\ truthy listing = true.
Proof.
  unfold consistent. intros Hc Hs.
  destruct p as [ | | | | |file| |why]; destruct r as [t|ok|ok|out|n];
    simpl in Hs; try discriminate; simpl in Hc;
    unfold scan_failed, after_scan, count_retry, loop_head, after_loop, await in *;
    simpl in *; try rewrite Hc in Hs; simpl in Hs; step_cases Hs.
  inversion Hs; subst. repeat split. eexists. split; [reflexivity|assumption].
Qed.

Lemma run_return script : forall tr0 st0 tr,
  consistent st0 ->
  run' tr0 st0 script = Some (tr, Finished Return) ->
  st0 = Finished Return \/
  exists pre listing post l,
    script = pre ++ Execute (Some listing) :: post /\
    truthy listing = true /\
    run' tr0 st0 pre = Some (tr, Waiting AtFindVmcore l).
Proof.
  induction script as [|r script IH]; intros tr0 st0 tr Hc Hr.
  - rewrite run_nil in Hr. inversion Hr; subst. left. reflexivity.
  - destruct st0 as [p l|o].
    + right. simpl in Hr.
      destruct (step' p l r) as [[cs st1]|] eqn:Hs; [|discriminate].
      destruct (IH _ _ _ (step_consistent _ _ _ _ _ Hc Hs) Hr)
        as [->|[pre [listing [post [l' [E [Ht Hpre]]]]]]].
      * destruct (step_return _ _ _ _ Hc Hs) as [-> [-> [listing [-> Ht]]]].
        rewrite run_finished in Hr. inversion Hr; subst.
        exists [], listing, script, l. rewrite app_nil_r. repeat split. exact Ht.
      * exists (r :: pre), listing, post, l'. subst script.
        repeat split; [exact Ht|]. simpl. rewrite Hs. exact Hpre.
    + rewrite run_finished in Hr. inversion Hr; subst. left. reflexivity.
Qed.

(** X2.  The function returns normally only at a poll whose first [find]
    printed a file: an execution that ends with a normal return consists of
    replies that lead to the first [find] of a poll, a non-empty reply to
    it, and unused replies. *)
Theorem returns_only_when_vmcore_found script tr :
  check_kdump_result timeout limit script = Some (tr, Finished Return) ->
  exists pre listing post l,
    script = pre ++ Execute (Some listing) :: post /\
    truthy listing = true /\
    check_kdump_result timeout limit pre = Some (tr, Waiting AtFindVmcore l).
Proof.
  intros H. unfold check_kdump_result in H. simpl in H.
  apply run_return in H; [|reflexivity].
  destruct H as [H|H]; [discriminate | exact H].
Qed.

Lemma no_capture_app tr cs :
  no_capture tr -> no_capture cs -> no_capture (tr ++ cs).
Proof.
  unfold no_capture. intros H1 H2 Hin. apply in_app_or in Hin. tauto.
Qed.

(** The calls of one step that does not start at a console log capture:
    a capture comes last and only when the next state waits for it. *)
Lemma step_capture p l r cs st' :
  (forall why, p <> AtConsoleLog why) ->
  step' p l r = Some (cs, st') ->
  match st' with
  | Waiting (AtConsoleLog _) _ =>
      cs = removelast cs ++ [GetConsoleLog] /\ no_capture (removelast cs)
  | Waiting _ _ | Finished Return => no_capture cs
  | Finished (Raise e) => e = SerialConsoleError /\ cs = []
  end.
Proof.
  intros Hp Hs.
  destruct p as [ | | | | |file| |why]; [ | | | | | | |elim (Hp why); reflexivity];
    destruct r as [t|ok|ok|out|n]; simpl in Hs; try discriminate; step_cases Hs;
    unfold scan_failed, after_scan, count_retry, loop_head, after_loop, await in *;
    simpl in *; step_cases Hs;
    inversion Hs; subst; unfold no_capture; simpl;
    try (split; [reflexivity|]); try reflexivity; intuition discriminate.
Qed.

Lemma step_captured_at_end tr p l r cs st' :
  captured_at_end tr (Waiting p l) ->
  step' p l r = Some (cs, st') ->
  captured_at_end (tr ++ cs) st'.
Proof.
  intros Hc Hs.
  assert (Hcases : (exists why, p = AtConsoleLog why) \/
                   (forall why, p <> AtConsoleLog why)).
  { destruct p; try (right; intros why; discriminate). left. eauto. }
  destruct Hcases as [[why ->]|Hp].
  - simpl in Hc. destruct r as [t|ok|[|]|out|n]; simpl in Hs; try discriminate;
      inversion Hs; subst; rewrite app_nil_r; simpl; left; exact Hc.
  - assert (Hno : no_capture tr) by (destruct p; try exact Hc; elim (Hp why); reflexivity).
    pose proof (step_capture _ _ _ _ _ Hp Hs) as Hshape.
    destruct st' as [p' l'|[|e]].
    + destruct p'; try (apply no_capture_app; assumption).
      destruct Hshape as [E Hpre]. simpl. exists (tr ++ removelast cs). split.
      * rewrite <- app_assoc, <- E. reflexivity.
      * apply no_capture_app; assumption.
    + simpl. apply no_capture_app; assumption.
    + destruct Hshape as [-> ->]. simpl. right. rewrite app_nil_r. tauto.
Qed.

Lemma run_captured_at_end script : forall tr st tr' st',
  captured_at_end tr st ->
  run' tr st script = Some (tr', st') ->
  captured_at_end tr' st'.
Proof.
  induction script as [|r script IH]; intros tr st tr' st' Hc Hr.
  - rewrite run_nil in Hr. inversion Hr; subst. exact Hc.
  - destruct st as [p l|o].
    + simpl in Hr. destruct (step' p l r) as [[cs st1]|] eqn:Hs; [|discriminate].
      eapply IH; [|exact Hr]. eapply step_captured_at_end; eassumption.
    + rewrite run_finished in Hr. inversion Hr; subst. exact Hc.
Qed.

Lemma check_captured_at_end script tr st :
  check script = Some (tr, st) -> captured_at_end tr st.
Proof.
  unfold check_kdump_result. simpl. intros H.
  eapply run_captured_at_end; [|exact H].
  simpl. unfold no_capture. simpl. intuition discriminate.
Qed.

(** X3.  The console log is captured at most once and nothing is called
    after it: wherever [get_console_log] occurs among the calls of an
    execution it is the last call, no earlier call is a capture, and the
    function is waiting for it or has raised.  An execution that returns
    normally has not captured the console log. *)
Theorem console_log_captured_last script tr st :
  check_kdump_result timeout limit script = Some (tr, st) ->
  (forall pre post, tr = pre ++ GetConsoleLog :: post ->
     post = [] /\ no_capture pre /\
     ((exists why l, st = Waiting (AtConsoleLog why) l) \/
      (exists e, st = Finished (Raise e)))) /\
  (st = Finished Return -> no_capture tr).
Proof.
  intros H. apply check_captured_at_end in H. split.
  - intros pre post E.
    assert (Hin : In GetConsoleLog tr).
    { rewrite E. apply in_or_app. right. left. reflexivity. }
    assert (Hshape : (exists tr', tr = tr' ++ [GetConsoleLog] /\ no_capture tr') /\
                     ((exists why l, st = Waiting (AtConsoleLog why) l) \/
                      (exists e, st = Finished (Raise e)))).
    { destruct st as [p l|[|e]].
      - destruct p; try (elim H; exact Hin). split; [exact H | left; eauto].
      - elim H. exact Hin.
      - destruct H as [H|[_ H]]; [|elim H; exact Hin]. split; [exact H | right; eauto]. }
    destruct Hshape as [[tr' [E' Hno]] Hst].
    assert (Hpost : post = []).
    { destruct post as [|c post] using rev_ind; [reflexivity|].
      exfalso. rewrite E in E'.
      change (pre ++ GetConsoleLog :: post ++ [c])
        with (pre ++ (GetConsoleLog :: post) ++ [c]) in E'.
      rewrite app_assoc in E'. apply app_inj_tail in E'. destruct E' as [E' _].
      apply Hno. rewrite <- E'. apply in_or_app. right. left. reflexivity. }
    subst post. rewrite E in E'. apply app_inj_tail in E'. destruct E' as [-> _].
    repeat split; assumption.
  - intros ->. exact H.
Qed.

(** X4.  An exception other than that of a serial console call is raised
    right after a console log capture, the only one of the execution. *)
Theorem failures_capture_console_log script tr e :
  check_kdump_result timeout limit script = Some (tr, Finished (Raise e)) ->
  e <> SerialConsoleError ->
  exists tr', tr = tr' ++ [GetConsoleLog] /\ no_capture tr'.
Proof.
  intros H He. apply check_captured_at_end in H.
  destruct H as [H|[H _]]; [exact H | contradiction].
Qed.

(** One step changes [incomplete_file_size] only when a size lookup
    returns. *)
Lemma step_measured p l r cs p' l' :
  step' p l r = Some (cs, Waiting p' l') ->
  incomplete_file_size l' = last_measured (incomplete_file_size l) [r].
Proof.
  intros Hs.
  destruct p as [ | | | | |file| |why]; destruct r as [t|ok|ok|out|n];
    simpl in Hs; try discriminate; step_cases Hs;
    unfold scan_failed, after_scan, count_retry, loop_head, after_loop, await in *;
    simpl in *; step_cases Hs;
    inversion Hs; subst; reflexivity.
Qed.

Lemma last_measured_cons before r script :
  last_measured before (r :: script) = last_measured (last_measured before [r]) script.
Proof. destruct r as [t|ok|ok|out|[n|]]; reflexivity. Qed.

Lemma run_measured script : forall tr0 p0 l0 tr p l,
  run' tr0 (Waiting p0 l0) script = Some (tr, Waiting p l) ->
  incomplete_file_size l = last_measured (incomplete_file_size l0) script.
Proof.
  induction script as [|r script IH]; intros tr0 p0 l0 tr p l Hr.
  - simpl in Hr. inversion Hr; subst. reflexivity.
  - simpl in Hr. destruct (step' p0 l0 r) as [[cs [p1 l1|o]]|] eqn:Hs;
      [ | rewrite run_finished in Hr; discriminate | discriminate ].
    rewrite last_measured_cons, <- (step_measured _ _ _ _ _ _ Hs).
    eapply IH. exact Hr.
Qed.

(** X5.  [incomplete_file_size] always holds the size returned by the
    latest size lookup of the whole execution, also one made before a
    disconnection, and is unassigned exactly when no lookup has returned.
    So when the deadline comparison of the inner loop fails, the "Timeout
    to dump vmcore file" exception reports that latest size, and the
    function fails on the unassigned variable when there is none. *)
Theorem dump_timeout_reports_latest_size script tr l :
  check_kdump_result timeout limit script = Some (tr, Waiting AtElapsedInner l) ->
  incomplete_file_size l = last_measured None script /\
  (forall t rest,
     timeout < t ->
     outcome_of
       (check_kdump_result timeout limit (script ++ Elapsed t :: Console true :: rest)) =
     Some (Raise match last_measured None script with
                 | Some size => TimeoutToDump size
                 | None => UnboundLocalError
                 end)).
Proof.
  intros H.
  assert (Hm : incomplete_file_size l = last_measured None script).
  { unfold check_kdump_result in H. simpl in H. apply run_measured in H. exact H. }
  split; [exact Hm|].
  intros t rest Ht. rewrite check_app, H. simpl.
  destruct (Z.gtb_spec t timeout) as [_|Hle]; [|lia].
  simpl. rewrite run_finished. simpl. rewrite Hm. reflexivity.
Qed.

Lemma run_growing_polls sts : forall tr l rest,
  growing (saved_dumpfile_size l) sts ->
  Forall (fun st => snd st <= timeout) sts ->
  sts <> [] ->
  exists tr' l',
    run' tr (Waiting AtFindVmcore l) (in_progress_polls sts ++ rest) =
    run' tr' (Waiting AtFindVmcore l') rest /\
    retries l' = 0 /\
    saved_dumpfile_size l' = last_size (saved_dumpfile_size l) sts /\
    incomplete_file_size l' = Some (last_size (saved_dumpfile_size l) sts) /\
    system_disconnected l' = system_disconnected l.
Proof.
  induction sts as [|[size t] sts IH]; intros tr l rest Hg Hts Hne; [congruence|].
  destruct Hg as [Hsize Hg]. simpl in Hsize, Hg.
  inversion Hts as [|st sts' Ht Hts']; subst. simpl in Ht.
  change (in_progress_polls ((size, t) :: sts))
    with (poll (ObsInProgress size, t) ++ in_progress_polls sts).
  rewrite <- app_assoc, run_growth_poll by lia.
  destruct sts as [|st sts].
  - simpl. eexists. eexists. split; [reflexivity|]. simpl. repeat split.
  - destruct (IH (tr ++ [FindIncomplete; GetTotalSize incomplete_marker; TimerElapsed;
                         Sleep 5; FindVmcore])
                 (set_retries 0
                    (set_saved_dumpfile_size size (set_incomplete_file_size size l)))
                 rest Hg Hts') as [tr' [l' [E [Hr [Hs [Hi Hd]]]]]]; [discriminate|].
    exists tr', l'. rewrite E. simpl in Hs, Hi, Hd.
    unfold last_size in *. simpl map in *. rewrite !last_cons in *.
    repeat split; assumption.
Qed.

(** X6.  A file that is larger at every poll is never declared stalled:
    after any number of such polls, with the timer within the budget, the
    function is still polling, the counter is 0 and the saved size is the
    size seen last, whatever the counter and the limit were. *)
Theorem steady_growth_never_stalls script tr l sts :
  check_kdump_result timeout limit script = Some (tr, Waiting AtFindVmcore l) ->
  growing (saved_dumpfile_size l) sts ->
  Forall (fun st => snd st <= timeout) sts ->
  sts <> [] ->
  exists tr' l',
    check_kdump_result timeout limit (script ++ in_progress_polls sts) =
    Some (tr', Waiting AtFindVmcore l') /\
    retries l' = 0 /\
    saved_dumpfile_size l' = last_size (saved_dumpfile_size l) sts.
Proof.
  intros H Hg Hts Hne. rewrite check_app, H.
  destruct (run_growing_polls sts tr l [] Hg Hts Hne) as [tr' [l' [E [Hr [Hs _]]]]].
  rewrite app_nil_r in E. rewrite E, run_nil. eauto.
Qed.

Lemma run_stagnant_polls ots : forall tr l rest,
  Forall (fun ot => without_growth (saved_dumpfile_size l) (fst ot) = true /\
                    snd ot <= timeout) ots ->
  retries l + Z.of_nat (length ots) < limit ->
  exists tr' l',
    run' tr (Waiting AtFindVmcore l) (polls ots ++ rest) =
    run' tr' (Waiting AtFindVmcore l') rest /\
    retries l' = retries l + Z.of_nat (length ots) /\
    saved_dumpfile_size l' = saved_dumpfile_size l.
Proof.
  induction ots as [|[o t] ots IH]; intros tr l rest Hots Hr.
  - exists tr, l. simpl. repeat split. lia.
  - inversion Hots as [|ot ots' [Ho Ht] Hots']; subst. simpl in Ho, Ht.
    change (polls ((o, t) :: ots)) with (poll (o, t) ++ polls ots).
    rewrite <- app_assoc.
    change (length ((o, t) :: ots)) with (S (length ots)) in *.
    destruct o as [|size|]; [| |discriminate].
    + rewrite run_none_poll by lia.
      destruct (IH (tr ++ [FindIncomplete; TimerElapsed; Sleep 5; FindVmcore])
                   (set_retries (retries l + 1) l) rest Hots')
        as [tr' [l' [E [Hr' Hs']]]]; [simpl; lia|].
      exists tr', l'. rewrite E. simpl in Hr', Hs'. repeat split; [lia | exact Hs'].
    + simpl in Ho. apply Z.leb_le in Ho. rewrite run_stale_poll by lia.
      destruct (IH (tr ++ [FindIncomplete; GetTotalSize incomplete_marker;
                           TimerElapsed; Sleep 5; FindVmcore])
                   (set_retries (retries l + 1) (set_incomplete_file_size size l))
                   rest Hots')
        as [tr' [l' [E [Hr' Hs']]]]; [simpl; lia|].
      exists tr', l'. rewrite E. simpl in Hr', Hs'. repeat split; [lia | exact Hs'].
Qed.

(** X7.  Polls that find nothing and polls that find the incomplete file
    no larger than the saved size feed one and the same counter: when
    [max_retries] polls in a row are of either kind, in any order, the
    last of them is followed by the console log capture and an exception,
    "No vmcore or vmcore-incomplete is found" if that poll found nothing
    and "The vmcore file is incomplete" with its size otherwise. *)
Theorem retries_count_both_kinds script tr l ots o rest :
  check_kdump_result timeout limit script = Some (tr, Waiting AtFindVmcore l) ->
  Forall (fun ot => without_growth (saved_dumpfile_size l) (fst ot) = true /\
                    snd ot <= timeout) ots ->
  without_growth (saved_dumpfile_size l) o = true ->
  retries l + Z.of_nat (length ots) + 1 = limit ->
  outcome_of
    (check_kdump_result timeout limit
       (script ++ polls ots ++ scan o ++ Console true :: rest)) =
  Some (Raise (retry_failure o)).
Proof.
  intros H Hots Ho Hr. rewrite check_app, H.
  destruct (run_stagnant_polls ots tr l (scan o ++ Console true :: rest) Hots)
    as [tr' [l' [E [Hr' Hs']]]]; [lia|].
  rewrite E. destruct o as [|size|]; [| |discriminate].
  - rewrite run_none_last by lia. reflexivity.
  - simpl in Ho. apply Z.leb_le in Ho.
    rewrite run_stale_last by lia. reflexivity.
Qed.

(** ** The polls of one connection, by what they observe *)

(** As long as the polls are tolerated, the function keeps polling and its
    saved size and counter are those of the tally. *)
Lemma run_tallied ots : forall tr l rest,
  Forall (fun ot => fst ot <> ObsComplete /\ snd ot <= timeout) ots ->
  tolerated limit (saved_dumpfile_size l, retries l) (map fst ots) = true ->
  exists tr' l',
    run' tr (Waiting AtFindVmcore l) (polls ots ++ rest) =
    run' tr' (Waiting AtFindVmcore l') rest /\
    (saved_dumpfile_size l', retries l') =
    tally (saved_dumpfile_size l, retries l) (map fst ots) /\
    system_disconnected l' = system_disconnected l.
Proof.
  induction ots as [|[o t] ots IH]; intros tr l rest Hots Htol.
  - exists tr, l. simpl. repeat split.
  - inversion Hots as [|ot ots' [Ho Ht] Hots']; subst. simpl in Ho, Ht.
    change (polls ((o, t) :: ots)) with (poll (o, t) ++ polls ots).
    rewrite <- app_assoc.
    simpl map in *. simpl tolerated in Htol. unfold tally. simpl fold_left.
    apply andb_true_iff in Htol. destruct Htol as [Hlim Htol].
    apply Z.ltb_lt in Hlim.
    assert (Hnext : forall tr1 l1,
              (saved_dumpfile_size l1, retries l1) =
              tally_poll (saved_dumpfile_size l, retries l) o ->
              system_disconnected l1 = system_disconnected l ->
              exists tr' l',
                run' tr1 (Waiting AtFindVmcore l1) (polls ots ++ rest) =
                run' tr' (Waiting AtFindVmcore l') rest /\
                (saved_dumpfile_size l', retries l') =
                fold_left tally_poll (map fst ots)
                  (tally_poll (saved_dumpfile_size l, retries l) o) /\
                system_disconnected l' = system_disconnected l).
    { intros tr1 l1 E1 Hd1. rewrite <- E1 in Htol.
      destruct (IH tr1 l1 rest Hots' Htol) as [tr' [l' [E [Ht' Hd']]]].
      exists tr', l'. rewrite E1 in Ht'. unfold tally in Ht'.
      repeat split; [exact E | exact Ht' | congruence]. }
    destruct o as [|size|]; [| |congruence].
    + unfold tally_poll, without_growth in Hlim. cbn [fst snd] in Hlim.
      rewrite run_none_poll by lia. apply Hnext; reflexivity.
    + unfold tally_poll, without_growth in Hlim, Hnext |- *.
      cbn [fst snd] in Hlim, Hnext |- *.
      destruct (Z.leb_spec size (saved_dumpfile_size l)) as [Hstale|Hgrow];
        cbn [fst snd] in Hlim.
      * rewrite run_stale_poll by lia. apply Hnext; reflexivity.
      * rewrite run_growth_poll by lia. apply Hnext; reflexivity.
Qed.

Lemma run_session ts t rest :
  Forall (fun t' => t' < timeout) ts ->
  t < timeout ->
  exists tr,
    check (failed_attempts ts ++ connection t ++ rest) =
    run' tr (Waiting AtFindVmcore (mkLocals false 0 0 None)) rest.
Proof.
  intros Hts Ht.
  rewrite check_unfold, run_failed_attempts by (try reflexivity; exact Hts).
  rewrite run_connection by exact Ht. eexists. reflexivity.
Qed.

(** C1 (amended).  When a poll is made whose first [find] prints a vmcore
    file, [_check_kdump_result] returns normally at that poll, whatever
    replies led to it.  After any number of failed connection attempts
    begun within the budget and a connection, that poll is made when the
    polls before it find nothing or an incomplete file, are followed by
    timer readings within the budget, and never make [max_retries] polls
    in a row without growth.  When they do, the last of these polls is
    followed by the console log capture and an exception, and a vmcore
    file that is there afterwards is never looked for. *)
Theorem complete_poll_returns :
  (forall script tr l listing rest,
     check_kdump_result timeout limit script = Some (tr, Waiting AtFindVmcore l) ->
     truthy listing = true ->
     outcome_of
       (check_kdump_result timeout limit (script ++ Execute (Some listing) :: rest)) =
     Some Return) /\
  (forall ts t ots rest,
     Forall (fun t' => t' < timeout) ts ->
     t < timeout ->
     Forall (fun ot => fst ot <> ObsComplete /\ snd ot <= timeout) ots ->
     tolerated limit (0, 0) (map fst ots) = true ->
     outcome_of
       (check_kdump_result timeout limit
          (failed_attempts ts ++ connection t ++ polls ots ++ scan ObsComplete ++ rest)) =
     Some Return) /\
  (forall ts t ots o rest,
     Forall (fun t' => t' < timeout) ts ->
     t < timeout ->
     Forall (fun ot => fst ot <> ObsComplete /\ snd ot <= timeout) ots ->
     tolerated limit (0, 0) (map fst ots) = true ->
     without_growth (fst (tally (0, 0) (map fst ots))) o = true ->
     limit <= snd (tally (0, 0) (map fst ots)) + 1 ->
     outcome_of
       (check_kdump_result timeout limit
          (failed_attempts ts ++ connection t ++ polls ots ++
           scan o ++ Console true :: rest)) =
     Some (Raise (retry_failure o))).
Proof.
  split; [|split].
  - intros script tr l listing rest H Ht.
    rewrite (check_complete _ _ _ _ _ H Ht). reflexivity.
  - intros ts t ots rest Hts Ht Hots Htol.
    destruct (run_session ts t (polls ots ++ scan ObsComplete ++ rest) Hts Ht)
      as [tr ->].
    destruct (run_tallied ots tr (mkLocals false 0 0 None) (scan ObsComplete ++ rest)
                Hots Htol) as [tr' [l' [E [_ Hd']]]].
    rewrite E. simpl scan. simpl app.
    rewrite (run_complete tr' l' vmcore_listing rest) by (try exact Hd'; reflexivity).
    reflexivity.
  - intros ts t ots o rest Hts Ht Hots Htol Ho Hlim.
    destruct (run_session ts t (polls ots ++ scan o ++ Console true :: rest) Hts Ht)
      as [tr ->].
    destruct (run_tallied ots tr (mkLocals false 0 0 None)
                (scan o ++ Console true :: rest) Hots Htol)
      as [tr' [l' [E [Htally _]]]].
    simpl saved_dumpfile_size in Htally. simpl retries in Htally.
    rewrite E. rewrite <- Htally in Ho, Hlim. simpl in Ho, Hlim.
    destruct o as [|size|]; [| |discriminate].
    + rewrite run_none_last by lia. reflexivity.
    + simpl in Ho. apply Z.leb_le in Ho.
      rewrite run_stale_last by lia. reflexivity.
Qed.

(** C3 (amended).  A poll that finds neither a vmcore file nor an
    incomplete file does not reset the retry counter: it adds one to it and
    leaves the saved size and the last measured size as they were.  After
    any tolerated polls of a connection the counter is the number of polls
    since the last one that showed growth, or since the counter's value
    before them when none did, and the saved size is the largest size
    seen; and a connection sets both to zero.  So the counter goes back to
    zero only by a poll that sees growth or by a new connection. *)
Theorem none_poll_counts_a_retry :
  (forall script tr l,
     check_kdump_result timeout limit script = Some (tr, Waiting AtFindVmcore l) ->
     (exists tr' p,
        check_kdump_result timeout limit (script ++ scan ObsNone) =
        Some (tr', Waiting p (set_retries (retries l + 1) l)) /\
        (p = AtElapsedInner \/ p = AtConsoleLog NotFound)) /\
     (forall ots,
        Forall (fun ot => fst ot <> ObsComplete /\ snd ot <= timeout) ots ->
        tolerated limit (saved_dumpfile_size l, retries l) (map fst ots) = true ->
        exists tr' l',
          check_kdump_result timeout limit (script ++ polls ots) =
          Some (tr', Waiting AtFindVmcore l') /\
          (saved_dumpfile_size l', retries l') =
          tally (saved_dumpfile_size l, retries l) (map fst ots))) /\
  (forall script tr l t,
     check_kdump_result timeout limit script = Some (tr, Waiting AtElapsedOuter l) ->
     t < timeout ->
     check_kdump_result timeout limit (script ++ connection t) =
     Some (tr ++ [TryConnect; NodeClose; FindVmcore],
           Waiting AtFindVmcore
             (mkLocals false 0 0 (incomplete_file_size l)))) /\
  (forall sc o,
     0 <= snd sc ->
     o <> ObsComplete ->
     (snd (tally_poll sc o) = 0 <->
      exists size, o = ObsInProgress size /\ fst sc < size)).
Proof.
  split; [|split].
  - intros script tr l H. split.
    + rewrite check_app, H. simpl. unfold count_retry. simpl.
      destruct (retries l + 1 >=? limit); simpl; eauto.
    + intros ots Hots Htol. rewrite check_app, H.
      destruct (run_tallied ots tr l [] Hots Htol) as [tr' [l' [E [Ht _]]]].
      rewrite app_nil_r in E. rewrite E, run_nil. eauto.
  - intros script tr l t H Ht.
    rewrite <- (app_nil_r (connection t)), check_app, H.
    rewrite run_connection by exact Ht. rewrite run_nil. reflexivity.
  - intros [saved count] o Hcount Ho. unfold tally_poll. simpl in *.
    destruct o as [|size|]; simpl; [| |congruence].
    + split; [lia|]. intros [size [E _]]. discriminate.
    + destruct (Z.leb_spec size saved) as [Hle|Hlt]; simpl.
      * split; [lia|]. intros [size' [E Hlt]]. injection E as <-. lia.
      * split; [intros _; eauto | reflexivity].
Qed.

End Executions.

(** ** Concrete executions *)

(** C1, counterexample.  Nothing is found at ten polls, the timer at 0
    throughout, and the vmcore file is in place for the eleventh: the
    function has raised "No vmcore or vmcore-incomplete is found" at the
    tenth and never sees it. *)
Lemma vmcore_after_ten_empty_polls_fails :
  In (Execute (Some vmcore_listing)) vmcore_after_ten_empty_polls /\
  readings_below default_timeout_of_dump_crash vmcore_after_ten_empty_polls = true /\
  outcome_of (kdump vmcore_after_ten_empty_polls) = Some (Raise NoVmcoreFound).
Proof.
  repeat split.
  unfold vmcore_after_ten_empty_polls. apply in_or_app. right.
  apply in_or_app. right. apply in_or_app. right. right. left. reflexivity.
Qed.

(** C2, counterexample.  With a limit of 3, three polls that see 10MB
    leave the counter at 2 and the function polling, and a vmcore file at
    the fourth poll makes it return normally; with the limit 10 of the
    source the same holds of ten polls that see 10MB, which leave the
    counter at 9. *)
Lemma equal_sizes_not_yet_stalled :
  state_of (check_kdump_result default_timeout_of_dump_crash 3 three_polls_of_10MB) =
    Some (Waiting AtFindVmcore (mkLocals false (10 * MB) 2 (Some (10 * MB)))) /\
  outcome_of
    (check_kdump_result default_timeout_of_dump_crash 3 three_polls_of_10MB_then_vmcore) =
    Some Return /\
  state_of (kdump ten_polls_of_10MB) =
    Some (Waiting AtFindVmcore (mkLocals false (10 * MB) 9 (Some (10 * MB)))) /\
  outcome_of (kdump ten_polls_of_10MB_then_vmcore) = Some Return.
Proof. repeat split. Qed.

(** C3, counterexample.  After a poll with growth and a poll without, a
    poll that finds nothing leaves the counter at 2 and the saved size at
    1MB. *)
Lemma none_poll_keeps_counting :
  state_of (kdump marker_disappears) =
  Some (Waiting AtFindVmcore (mkLocals false MB 2 (Some MB))).
Proof. reflexivity. Qed.

(** C4, counterexample.  Ten polls that find nothing, the timer at 0
    throughout, end in the "No vmcore or vmcore-incomplete is found"
    exception. *)
Lemma ten_empty_polls_fail :
  readings_below default_timeout_of_dump_crash ten_empty_polls = true /\
  outcome_of (kdump ten_empty_polls) = Some (Raise NoVmcoreFound).
Proof. split; reflexivity. Qed.

(** C5, counterexample.  Two executions that differ only in whether the
    initramfs check returns or raises: one returns normally, the other
    raises the error of the serial console.  And two that differ only in
    whether the console log capture returns or raises: one raises "No
    vmcore or vmcore-incomplete is found", the other the error of the
    serial console. *)
Lemma serial_console_error_changes_outcome :
  map heal reconnect_with_check_raising = reconnect_with_check_returning /\
  outcome_of (kdump reconnect_with_check_returning) = Some Return /\
  outcome_of (kdump reconnect_with_check_raising) = Some (Raise SerialConsoleError) /\
  map heal ten_empty_polls_and_capture_raises = ten_empty_polls /\
  outcome_of (kdump ten_empty_polls) = Some (Raise NoVmcoreFound) /\
  outcome_of (kdump ten_empty_polls_and_capture_raises) =
    Some (Raise SerialConsoleError).
Proof. repeat split. Qed.

(** C7, counterexample.  No connection attempt succeeds and the budget is
    spent, but the console log capture raises: the function ends with the
    error of the serial console, not with "Timeout to connect the VM". *)
Lemma capture_error_replaces_connect_timeout :
  never_connects no_connection_and_capture_raises = true /\
  outcome_of (kdump no_connection_and_capture_raises) = Some (Raise SerialConsoleError).
Proof. split; reflexivity. Qed.

(** C10.  The VM is back late in the budget, the dump directory is empty,
    and the budget is spent at the first deadline comparison: the message
    of the "Timeout to dump vmcore file" exception reads
    [incomplete_file_size], which was never assigned. *)
Theorem dump_timeout_reads_unassigned_size :
  calls_of (kdump budget_spent_before_any_marker) =
    [TimerElapsed; TryConnect; NodeClose; FindVmcore; FindIncomplete; TimerElapsed;
     GetConsoleLog] /\
  outcome_of (kdump budget_spent_before_any_marker) = Some (Raise UnboundLocalError).
Proof. split; reflexivity. Qed.

(** ** The theorems at concrete executions *)

(** Scenario A of the spec, after two failed connection attempts. *)
Lemma complete_poll_returns_witness :
  Forall (fun t' => t' < 800) [0; 30] /\
  tolerated 10 (0, 0) [ObsNone; ObsNone; ObsInProgress MB; ObsInProgress (5 * MB)] = true /\
  outcome_of
    (check_kdump_result 800 10
       (failed_attempts [0; 30] ++ connection 60 ++
        polls [(ObsNone, 61); (ObsNone, 66); (ObsInProgress MB, 71);
               (ObsInProgress (5 * MB), 76)] ++
        scan ObsComplete ++ [])) = Some Return.
Proof.
  split; [|split].
  - repeat constructor.
  - reflexivity.
  - apply (proj1 (proj2 (complete_poll_returns 800 10))).
    + repeat constructor.
    + reflexivity.
    + repeat (constructor; [split; [discriminate | simpl; lia]|]). constructor.
    + reflexivity.
Defined.

(** Scenario B of the spec with one more poll: four polls that see 10MB,
    the limit being 3. *)
Lemma stall_after_max_retries_polls_witness :
  non_increasing [10 * MB; 10 * MB; 10 * MB; 10 * MB] /\
  outcome_of
    (check_kdump_result 800 3
       (connection 0 ++ poll (ObsInProgress (10 * MB), 5) ++
        in_progress_polls [(10 * MB, 10); (10 * MB, 15)] ++
        scan (ObsInProgress (10 * MB)) ++ [Console true])) =
  Some (Raise (VmcoreIncomplete (10 * MB))).
Proof.
  split.
  - simpl. lia.
  - apply (stall_after_max_retries_polls 800 3 0 (10 * MB) 5
             [(10 * MB, 10); (10 * MB, 15)] (10 * MB) []).
    + lia.
    + reflexivity.
    + lia.
    + repeat constructor; simpl; lia.
    + simpl. lia.
    + reflexivity.
Defined.

Lemma none_poll_counts_a_retry_witness :
  (exists tr' p,
     check_kdump_result 800 10 (connection 0 ++ scan ObsNone) =
     Some (tr', Waiting p (mkLocals false 0 1 None)) /\
     (p = AtElapsedInner \/ p = AtConsoleLog NotFound)) /\
  (exists tr' l',
     check_kdump_result 800 10
       (connection 0 ++
        polls [(ObsInProgress MB, 5); (ObsNone, 10); (ObsInProgress MB, 15);
               (ObsInProgress (2 * MB), 20); (ObsNone, 25)]) =
     Some (tr', Waiting AtFindVmcore l') /\
     (saved_dumpfile_size l', retries l') = (2 * MB, 1)).
Proof.
  pose proof (proj1 (none_poll_counts_a_retry 800 10) (connection 0)
                [TimerElapsed; TryConnect; NodeClose; FindVmcore]
                (mkLocals false 0 0 None) eq_refl) as [Hnone Hpolls].
  split; [exact Hnone|].
  apply (Hpolls [(ObsInProgress MB, 5); (ObsNone, 10); (ObsInProgress MB, 15);
                 (ObsInProgress (2 * MB), 20); (ObsNone, 25)]).
  - repeat (constructor; [split; [discriminate | simpl; lia]|]). constructor.
  - reflexivity.
Defined.

Lemma none_polls_until_max_retries_witness :
  (exists tr',
     check_kdump_result 800 10 (connection 0 ++ none_polls (repeat 10 9%nat)) =
     Some (tr', Waiting AtFindVmcore (mkLocals false 0 9 None))) /\
  outcome_of
    (check_kdump_result 800 10
       (connection 0 ++ none_polls (repeat 10 9%nat) ++ scan ObsNone ++ [Console true])) =
  Some (Raise NoVmcoreFound).
Proof.
  pose proof (none_polls_until_max_retries 800 10 (connection 0)
                [TimerElapsed; TryConnect; NodeClose; FindVmcore]
                (mkLocals false 0 0 None) eq_refl) as [Hpolling Hlast].
  split.
  - apply (Hpolling (repeat 10 9%nat)).
    + repeat constructor; lia.
    + reflexivity.
  - apply (Hlast (repeat 10 9%nat) []).
    + repeat constructor; lia.
    + reflexivity.
Defined.

Lemma console_error_propagates_witness :
  check_kdump_result 800 10 ([Elapsed 0; Connect false] ++ [Console false; Elapsed 5]) =
  Some ([TimerElapsed; TryConnect; LogDebug; CheckInitramfs],
        Finished (Raise SerialConsoleError)).
Proof.
  apply (proj1 (console_error_propagates 800 10) [Elapsed 0; Connect false]
           [TimerElapsed; TryConnect; LogDebug; CheckInitramfs]
           AtCheckInitramfs entry_locals [Elapsed 5]).
  - reflexivity.
  - reflexivity.
Defined.

(** Scenario D of the spec: the second [find] raises, the VM is back
    after one more failed attempt, and the first poll finds the vmcore
    file. *)
Lemma scan_exception_reconnects_witness :
  outcome_of
    (check_kdump_result 800 10
       ((connection 0 ++ [Execute (Some EmptyString)]) ++
        raising AtFindIncomplete :: (failed_attempts [20] ++ connection 40) ++
        Execute (Some vmcore_listing) :: [])) = Some Return.
Proof.
  pose proof (scan_exception_reconnects 800 10
                (connection 0 ++ [Execute (Some EmptyString)])
                [TimerElapsed; TryConnect; NodeClose; FindVmcore; FindIncomplete]
                AtFindIncomplete (mkLocals false 0 0 None) eq_refl eq_refl)
    as [_ [_ Hlater]].
  apply (Hlater (failed_attempts [20] ++ connection 40)
           [TimerElapsed; TryConnect; NodeClose; FindVmcore; FindIncomplete; LogDebug;
            TimerElapsed; TryConnect; LogDebug; CheckInitramfs; TimerElapsed; TryConnect;
            NodeClose; FindVmcore]
           (mkLocals false 0 0 None) vmcore_listing []).
  - reflexivity.
  - reflexivity.
Defined.

(** Scenario C of the spec, with a budget of 60. *)
Lemma never_connected_times_out_witness :
  Forall (fun t' => t' < 60) [0; 25; 50] /\
  check_kdump_result 60 10 (failed_attempts [0; 25; 50] ++ [Elapsed 75; Console true]) =
  Some ([TimerElapsed; TryConnect; LogDebug; CheckInitramfs; TimerElapsed;
         TryConnect; LogDebug; CheckInitramfs; TimerElapsed;
         TryConnect; LogDebug; CheckInitramfs; TimerElapsed; GetConsoleLog],
        Finished (Raise TimeoutToConnect)).
Proof.
  split.
  - repeat constructor.
  - apply (never_connected_times_out 60 10 [0; 25; 50] 75 []).
    + repeat constructor.
    + lia.
Defined.

Lemma deadline_checked_every_iteration_witness :
  check_kdump_result 800 10 ((connection 0 ++ scan ObsNone) ++ [Elapsed 801]) =
  Some ([TimerElapsed; TryConnect; NodeClose; FindVmcore; FindIncomplete; TimerElapsed] ++
        [GetConsoleLog],
        Waiting (AtConsoleLog DumpTimeout) (mkLocals false 0 1 None)) /\
  (exists pre',
     [TimerElapsed; TryConnect; NodeClose] =
     pre' ++ [TimerElapsed; TryConnect; NodeClose] \/
     exists n, [TimerElapsed; TryConnect; NodeClose] = pre' ++ [TimerElapsed; Sleep n]).
Proof.
  pose proof (deadline_checked_every_iteration 800 10 (connection 0 ++ scan ObsNone)
                [TimerElapsed; TryConnect; NodeClose; FindVmcore; FindIncomplete;
                 TimerElapsed]
                (Waiting AtElapsedInner (mkLocals false 0 1 None)) eq_refl)
    as [_ [_ [Hpoll [_ [Hinner _]]]]].
  split.
  - apply (Hinner (mkLocals false 0 1 None) 801).
    + reflexivity.
    + lia.
  - apply (Hpoll [TimerElapsed; TryConnect; NodeClose] [FindIncomplete; TimerElapsed]).
    reflexivity.
Defined.

(** A vmcore file next to an incomplete one: the second lookup, which
    would have found the incomplete file, is never made. *)
Lemma vmcore_lookup_comes_first_witness :
  check_kdump_result 800 10
    (connection 0 ++
     Execute (Some vmcore_listing) ::
     [Execute (Some incomplete_marker); TotalSize (Some MB)]) =
  Some ([TimerElapsed; TryConnect; NodeClose; FindVmcore], Finished Return).
Proof.
  pose proof (vmcore_lookup_comes_first 800 10 (connection 0)
                [TimerElapsed; TryConnect; NodeClose; FindVmcore]
                (Waiting AtFindVmcore (mkLocals false 0 0 None)) eq_refl)
    as [_ [Hcomplete _]].
  apply (Hcomplete (mkLocals false 0 0 None) vmcore_listing
           [Execute (Some incomplete_marker); TotalSize (Some MB)]).
  - reflexivity.
  - reflexivity.
Defined.

(** ** The test cases that crash a chosen CPU *)

(** X8.  No test case that chooses the CPU to crash can reach the
    [SkippedException] of [_trigger_kdump_on_specified_cpu] on a node it is
    meant for: the [core_count] required by each fixed-CPU test case lies
    above its CPU number, and the random test case draws a CPU number
    below the CPU count.  The test then runs with [taskset] on that CPU. *)
Theorem chosen_cpu_is_never_skipped :
  (forall t cpu_count,
     in_range (core_count_requirement t) cpu_count ->
     trigger_kdump_on_specified_cpu (crash_cpu t) cpu_count =
     RunKdumpTest
       ("taskset -c " ++ str_of_int (crash_cpu t) ++ " echo c > /proc/sysrq-trigger")) /\
  (forall cpu_count draw,
     0 <= draw <= cpu_count - 1 ->
     kdumpcrash_validate_on_random_cpu cpu_count draw =
     Some (RunKdumpTest
             ("taskset -c " ++ str_of_int draw ++ " echo c > /proc/sysrq-trigger"))).
Proof.
  split.
  - intros t cpu_count [Hmin _]. unfold trigger_kdump_on_specified_cpu.
    destruct (Z.gtb_spec cpu_count (crash_cpu t)) as [_|Hle]; [reflexivity|].
    destruct t; simpl in *; lia.
  - intros cpu_count draw Hdraw.
    unfold kdumpcrash_validate_on_random_cpu, trigger_kdump_on_specified_cpu.
    destruct (Z.ltb_spec (cpu_count - 1) 0) as [Hneg|_]; [lia|].
    destruct (Z.gtb_spec cpu_count draw) as [_|Hle]; [reflexivity | lia].
Qed.

(** ** Storage account names *)

Lemma string_length_append (s1 s2 : string) :
  String.length (s1 ++ s2) = (String.length s1 + String.length s2)%nat.
Proof. induction s1 as [|c s1 IH]; simpl; [reflexivity | rewrite IH; reflexivity]. Qed.

Lemma string_length_substring (s : string) : forall n m,
  String.length (substring n m s) = Nat.min m (String.length s - n).
Proof.
  induction s as [|c s IH]; intros n m.
  - destruct n, m; reflexivity.
  - destruct n as [|n].
    + destruct m as [|m]; [reflexivity|]. simpl. rewrite IH, Nat.sub_0_r. reflexivity.
    + simpl. apply IH.
Qed.

Lemma string_append_inj (a b c d : string) :
  String.length a = String.length b ->
  (a ++ c)%string = (b ++ d)%string ->
  a = b /\ c = d.
Proof.
  revert b. induction a as [|x a IH]; intros [|y b] Hlen H; try discriminate.
  - split; [reflexivity | exact H].
  - simpl in H. injection H as Hx H. injection Hlen as Hlen.
    destruct (IH b Hlen H) as [-> ->]. subst y. split; reflexivity.
Qed.

(** X9.  A storage account name is "lisas", then at most 11 characters of
    the location, then at most 8 characters of the subscription id: it is
    between 5 and 24 characters long, and is 24 characters long as soon as
    the location has 11 characters and the subscription id 8. *)
Theorem storage_account_name_length subscription_id location :
  let name := get_storage_account_name subscription_id location in
  prefix "lisas" name = true /\
  String.length name =
    (5 + Nat.min 11 (String.length location) +
     Nat.min 8 (String.length subscription_id))%nat /\
  (5 <= String.length name <= 24)%nat.
Proof.
  intros name.
  assert (Hlen : String.length name =
                 (5 + Nat.min 11 (String.length location) +
                  Nat.min 8 (String.length subscription_id))%nat).
  { unfold name, get_storage_account_name, slice_first, slice_last.
    rewrite !string_length_append, !string_length_substring. simpl String.length. lia. }
  repeat split.
  - apply prefix_correct. unfold name, get_storage_account_name.
    generalize (slice_first 11 location ++ slice_last 8 subscription_id)%string.
    intros rest. simpl. destruct rest; reflexivity.
  - exact Hlen.
  - lia.
  - lia.
Qed.

(** X10.  Of a location only the first 11 characters reach the storage
    account name, and of a subscription id only the last 8: for locations
    of at least 11 characters, two names are equal exactly when those
    parts are.  Two such locations with a common beginning share their
    storage account name within a subscription. *)
Theorem storage_account_name_collides sub1 loc1 sub2 loc2 :
  (11 <= String.length loc1)%nat ->
  (11 <= String.length loc2)%nat ->
  get_storage_account_name sub1 loc1 = get_storage_account_name sub2 loc2 <->
  slice_first 11 loc1 = slice_first 11 loc2 /\ slice_last 8 sub1 = slice_last 8 sub2.
Proof.
  intros H1 H2. unfold get_storage_account_name. split.
  - intros E. apply (string_append_inj "lisas" "lisas") in E; [|reflexivity].
    destruct E as [_ E]. apply string_append_inj in E; [exact E|].
    unfold slice_first. rewrite !string_length_substring. lia.
  - intros [-> ->]. reflexivity.
Qed.

(** ** Tags of a git repository *)

Lemma string_append_cancel_r (a b c : string) :
  (a ++ c)%string = (b ++ c)%string -> a = b.
Proof.
  intros E. apply string_append_inj in E; [tauto|].
  apply (f_equal String.length) in E. rewrite !string_length_append in E. lia.
Qed.

(** X11.  A git of version 2.36.1 or later is asked to sort the tags as
    [sort_by] says, and different values of [sort_by] give different
    commands; an older git is asked for the tags in the order of
    [sort -V] whatever the value of [sort_by], as long as it is not
    empty. *)
Theorem old_git_ignores_sort_by version sort_by1 sort_by2 contains :
  truthy sort_by1 = true ->
  truthy sort_by2 = true ->
  (version_ge version (2, 36, 1)%nat = false ->
   tag_command version sort_by1 contains = tag_command version sort_by2 contains) /\
  (version_ge version (2, 36, 1)%nat = true ->
   tag_command version sort_by1 contains = tag_command version sort_by2 contains ->
   sort_by1 = sort_by2).
Proof.
  intros H1 H2. unfold tag_command. rewrite H1, H2. split; intros Hv.
  - rewrite Hv. simpl. reflexivity.
  - rewrite Hv. simpl orb. cbv iota. intros E.
    apply (string_append_inj "--no-pager tag " "--no-pager tag ") in E; [|reflexivity].
    destruct E as [_ E].
    apply (string_append_cancel_r ("--sort=" ++ sort_by1) ("--sort=" ++ sort_by2)) in E.
    apply (string_append_inj "--sort=" "--sort=") in E; [tauto | reflexivity].
Qed.

(** X12.  The tag that [get_tag] returns is one of the tags that git
    listed and, when a filter is given, one that the filter finds a match
    in; the assertion fails only when git listed no tag or the filter
    finds a match in none. *)
Theorem selected_tag_is_listed compile filter return_last tags :
  (forall name,
     select_tag compile filter return_last tags = Tag name ->
     In name tags /\
     (truthy filter = true ->
      exists filter_re, compile filter = Some filter_re /\ filter_re name = true)) /\
  (select_tag compile filter return_last tags = AssertionError ->
   tags = [] \/
   (truthy filter = true /\
    exists filter_re,
      compile filter = Some filter_re /\
      forall name, In name tags -> filter_re name = false)).
Proof.
  unfold select_tag. split.
  - intros name H.
    assert (Hin : forall (l : list string) first rest,
               l = first :: rest ->
               In (if return_last then last rest first else first) l).
    { intros l first rest ->. destruct return_last; [|left; reflexivity].
      rewrite <- (last_cons _ rest first first).
      destruct (@exists_last _ (first :: rest)) as [pre [x E]]; [discriminate|].
      rewrite E, last_app_cons. simpl. apply in_or_app. right. left. reflexivity. }
    destruct (truthy filter).
    + destruct (compile filter) as [filter_re|]; [|discriminate].
      destruct (List.filter filter_re tags) as [|first rest] eqn:E; [discriminate|].
      injection H as <-. specialize (Hin (first :: rest) first rest eq_refl).
      rewrite <- E in Hin.
      apply filter_In in Hin. split; [tauto|]. intros _. exists filter_re. tauto.
    + destruct tags as [|first rest]; [discriminate|].
      injection H as <-. split; [apply Hin; reflexivity | discriminate].
  - intros H. destruct (truthy filter).
    + destruct (compile filter) as [filter_re|]; [|discriminate].
      destruct (List.filter filter_re tags) as [|first rest] eqn:E; [|discriminate].
      right. split; [reflexivity|]. exists filter_re. split; [reflexivity|].
      intros name Hin. destruct (filter_re name) eqn:Hm; [|reflexivity].
      assert (Hf : In name (List.filter filter_re tags)) by (apply filter_In; tauto).
      rewrite E in Hf. destruct Hf.
    + destruct tags as [|first rest]; [left; reflexivity | discriminate].
Qed.

(** ** Marketplace images *)

Section MarketplaceProperties.

Variable is_space : ascii -> bool.
Variable lower_char : ascii -> ascii.
Variable schema_load : list (string * string) -> option AzureVmMarketplaceSchema.

(** Lowering a character does not make or unmake a colon or a
    whitespace. *)
Hypothesis lower_keeps_separators :
  forall c, is_separator is_space (lower_char c) = is_separator is_space c.

Local Abbreviation sep := (is_separator is_space).
Local Abbreviation low := (lower lower_char).
Local Abbreviation split := (re_split is_space).

Lemma string_append_assoc (a b c : string) :
  ((a ++ b) ++ c)%string = (a ++ (b ++ c))%string.
Proof. induction a as [|x a IH]; simpl; [reflexivity | rewrite IH; reflexivity]. Qed.

Lemma string_append_nil_r (a : string) : (a ++ EmptyString)%string = a.
Proof. induction a as [|x a IH]; simpl; [reflexivity | rewrite IH; reflexivity]. Qed.

Lemma lower_append (a b : string) : low (a ++ b) = (low a ++ low b)%string.
Proof. induction a as [|x a IH]; simpl; [reflexivity | rewrite IH; reflexivity]. Qed.

Lemma lower_is_field f : is_field sep f -> is_field sep (low f).
Proof.
  intros [Hne Hall]. split.
  - destruct f; [discriminate | reflexivity].
  - clear Hne. induction f as [|c f IH]; [reflexivity|].
    simpl in *. apply andb_true_iff in Hall. destruct Hall as [Hc Hall].
    rewrite lower_keeps_separators, Hc. simpl. apply IH. exact Hall.
Qed.

Lemma lower_is_run s : is_run sep s -> is_run sep (low s).
Proof.
  intros [Hne Hall]. split.
  - destruct s; [discriminate | reflexivity].
  - clear Hne. induction s as [|c s IH]; [reflexivity|].
    simpl in *. apply andb_true_iff in Hall. destruct Hall as [Hc Hall].
    rewrite lower_keeps_separators, Hc. simpl. apply IH. exact Hall.
Qed.

Lemma split_cons in_run s : exists piece pieces, split in_run s = piece :: pieces.
Proof.
  revert in_run. induction s as [|c s IH]; intros in_run; simpl; [eauto|].
  destruct (sep c).
  - destruct in_run; [apply IH | eauto].
  - destruct (IH false) as [piece [pieces ->]]. eauto.
Qed.

(** A piece without separators is glued to the piece that follows. *)
Lemma split_field f : forall s piece pieces,
  all_chars (fun c => negb (sep c)) f = true ->
  split false s = piece :: pieces ->
  split false (f ++ s) = (f ++ piece)%string :: pieces.
Proof.
  induction f as [|c f IH]; intros s piece pieces Hall Hs; [exact Hs|].
  simpl in Hall. apply andb_true_iff in Hall. destruct Hall as [Hc Hall].
  apply negb_true_iff in Hc. simpl. rewrite Hc, (IH _ _ _ Hall Hs). reflexivity.
Qed.

Lemma split_in_run s : forall rest,
  all_chars sep s = true ->
  split true (s ++ rest) = split true rest.
Proof.
  induction s as [|c s IH]; intros rest Hall; [reflexivity|].
  simpl in Hall. apply andb_true_iff in Hall. destruct Hall as [Hc Hall].
  simpl. rewrite Hc. apply IH. exact Hall.
Qed.

Lemma split_after_run f rest :
  is_field sep f -> split true (f ++ rest) = split false (f ++ rest).
Proof.
  intros [Hne Hall]. destruct f as [|c f]; [discriminate|].
  simpl in Hall. apply andb_true_iff in Hall. destruct Hall as [Hc _].
  apply negb_true_iff in Hc. simpl. rewrite Hc. reflexivity.
Qed.

(** A run of separators between two pieces ends the first and starts the
    second. *)
Lemma split_run s f rest :
  is_run sep s -> is_field sep f ->
  split false (s ++ f ++ rest) = EmptyString :: split false (f ++ rest).
Proof.
  intros [Hne Hall] Hf. destruct s as [|c s]; [discriminate|].
  simpl in Hall. apply andb_true_iff in Hall. destruct Hall as [Hc Hall].
  simpl. rewrite Hc, (split_in_run _ _ Hall). f_equal. apply split_after_run. exact Hf.
Qed.

Lemma split_four f1 s1 f2 s2 f3 s3 f4 :
  is_field sep f1 -> is_run sep s1 -> is_field sep f2 -> is_run sep s2 ->
  is_field sep f3 -> is_run sep s3 -> is_field sep f4 ->
  split false (f1 ++ s1 ++ f2 ++ s2 ++ f3 ++ s3 ++ f4) = [f1; f2; f3; f4].
Proof.
  intros F1 S1 F2 S2 F3 S3 F4.
  assert (E4 : split false (f4 ++ EmptyString) = [f4]).
  { rewrite (split_field f4 EmptyString EmptyString []); [|apply F4|reflexivity].
    rewrite string_append_nil_r. reflexivity. }
  assert (E3 : split false (f3 ++ s3 ++ f4 ++ EmptyString) = [f3; f4]).
  { rewrite (split_field f3 _ EmptyString [f4]); [|apply F3|].
    - rewrite string_append_nil_r. reflexivity.
    - rewrite split_run, E4 by assumption. reflexivity. }
  assert (E2 : split false (f2 ++ s2 ++ f3 ++ s3 ++ f4 ++ EmptyString) = [f2; f3; f4]).
  { rewrite (split_field f2 _ EmptyString [f3; f4]); [|apply F2|].
    - rewrite string_append_nil_r. reflexivity.
    - rewrite split_run, E3 by assumption. reflexivity. }
  rewrite <- (string_append_nil_r f4) at 1.
  rewrite (split_field f1 _ EmptyString [f2; f3; f4]); [|apply F1|].
  - rewrite string_append_nil_r. reflexivity.
  - rewrite split_run, E2 by assumption. reflexivity.
Qed.

Lemma lstrip_spaces pad s :
  all_chars is_space pad = true -> lstrip is_space (pad ++ s) = lstrip is_space s.
Proof.
  induction pad as [|c pad IH]; intros Hall; [reflexivity|].
  simpl in Hall. apply andb_true_iff in Hall. destruct Hall as [Hc Hall].
  simpl. rewrite Hc. apply IH. exact Hall.
Qed.

Lemma field_starts_without_space f rest :
  is_field sep f -> lstrip is_space (f ++ rest) = (f ++ rest)%string.
Proof.
  intros [Hne Hall]. destruct f as [|c f]; [discriminate|].
  simpl in Hall. apply andb_true_iff in Hall. destruct Hall as [Hc _].
  apply negb_true_iff in Hc. unfold is_separator in Hc.
  apply orb_false_iff in Hc. destruct Hc as [_ Hc]. simpl. rewrite Hc. reflexivity.
Qed.

Lemma rstrip_spaces pad :
  all_chars is_space pad = true -> rstrip is_space pad = EmptyString.
Proof.
  induction pad as [|c pad IH]; intros Hall; [reflexivity|].
  simpl in Hall. apply andb_true_iff in Hall. destruct Hall as [Hc Hall].
  simpl. rewrite (IH Hall), Hc. reflexivity.
Qed.

Lemma rstrip_field f pad :
  is_field sep f ->
  all_chars is_space pad = true ->
  rstrip is_space (f ++ pad) = f.
Proof.
  intros [Hne Hall] Hpad. induction f as [|c f IH]; [discriminate|].
  simpl in Hall. apply andb_true_iff in Hall. destruct Hall as [Hc Hall].
  apply negb_true_iff in Hc. unfold is_separator in Hc.
  apply orb_false_iff in Hc. destruct Hc as [_ Hc].
  simpl. destruct f as [|d f].
  - simpl. rewrite (rstrip_spaces _ Hpad), Hc. reflexivity.
  - rewrite IH by (try reflexivity; exact Hall). reflexivity.
Qed.

Lemma rstrip_before_field a f pad :
  is_field sep f ->
  all_chars is_space pad = true ->
  rstrip is_space (a ++ f ++ pad) = (a ++ f)%string.
Proof.
  intros Hf Hpad. induction a as [|c a IH]; [simpl; apply rstrip_field; assumption|].
  simpl. rewrite IH. destruct (a ++ f)%string eqn:E; [|reflexivity].
  exfalso. destruct Hf as [Hne _]. destruct a; [|discriminate].
  simpl in E. subst f. discriminate.
Qed.

Lemma strip_padding pad1 f1 middle f4 pad2 :
  all_chars is_space pad1 = true ->
  is_field sep f1 -> is_field sep f4 ->
  all_chars is_space pad2 = true ->
  strip is_space (pad1 ++ f1 ++ middle ++ f4 ++ pad2) = (f1 ++ middle ++ f4)%string.
Proof.
  intros Hp1 F1 F4 Hp2. unfold strip.
  rewrite lstrip_spaces, field_starts_without_space by assumption.
  rewrite <- !string_append_assoc.
  rewrite (string_append_assoc _ f4 pad2).
  rewrite rstrip_before_field by assumption.
  reflexivity.
Qed.

Lemma truthy_append_field pad f rest :
  is_field sep f -> truthy (pad ++ f ++ rest) = true.
Proof.
  intros [Hne _]. destruct pad; [|reflexivity].
  destruct f; [discriminate | reflexivity].
Qed.

(** The getter on four fields with separators between them and whitespace
    around them. *)
Lemma marketplace_of_four_fields pad1 f1 s1 f2 s2 f3 s3 f4 pad2 v :
  all_chars is_space pad1 = true ->
  is_field sep f1 -> is_run sep s1 ->
  is_field sep f2 -> is_run sep s2 ->
  is_field sep f3 -> is_run sep s3 ->
  is_field sep f4 ->
  all_chars is_space pad2 = true ->
  let raw := (pad1 ++ f1 ++ s1 ++ f2 ++ s2 ++ f3 ++ s3 ++ f4 ++ pad2)%string in
  let m := mkMarketplace (low f1) (low f2) (low f3) (low f4) in
  marketplace is_space lower_char schema_load (mkNode v (RawStr raw) None) =
  Got (Some m) (mkNode v (RawDict (to_dict m)) (Some m)).
Proof.
  intros Hp1 F1 S1 F2 S2 F3 S3 F4 Hp2 raw m.
  assert (Hsplit : split false (low (strip is_space raw)) =
                   [low f1; low f2; low f3; low f4]).
  { unfold raw.
    replace (pad1 ++ f1 ++ s1 ++ f2 ++ s2 ++ f3 ++ s3 ++ f4 ++ pad2)%string
      with (pad1 ++ f1 ++ (s1 ++ f2 ++ s2 ++ f3 ++ s3) ++ f4 ++ pad2)%string
      by (rewrite !string_append_assoc; reflexivity).
    rewrite strip_padding by assumption.
    rewrite !string_append_assoc, !lower_append.
    apply split_four; auto using lower_is_field, lower_is_run. }
  assert (Hraw : truthy raw = true) by (apply truthy_append_field; exact F1).
  unfold marketplace. simpl. rewrite Hraw, Hsplit. reflexivity.
Qed.

(** X13.  Both documented forms of the marketplace parameter are read:
    four fields free of colons and whitespace, separated by any non-empty
    mix of colons and whitespace and surrounded by any whitespace, give
    the marketplace made of the four fields in lower case; [marketplace_raw]
    becomes its dict, and the image name is the four lower-case fields
    joined by single spaces. *)
Theorem marketplace_string_is_parsed pad1 f1 s1 f2 s2 f3 s3 f4 pad2 v :
  all_chars is_space pad1 = true ->
  is_field sep f1 -> is_run sep s1 ->
  is_field sep f2 -> is_run sep s2 ->
  is_field sep f3 -> is_run sep s3 ->
  is_field sep f4 ->
  all_chars is_space pad2 = true ->
  let raw := (pad1 ++ f1 ++ s1 ++ f2 ++ s2 ++ f3 ++ s3 ++ f4 ++ pad2)%string in
  let m := mkMarketplace (low f1) (low f2) (low f3) (low f4) in
  marketplace is_space lower_char schema_load (mkNode v (RawStr raw) None) =
    Got (Some m) (mkNode v (RawDict (to_dict m)) (Some m)) /\
  get_image_name is_space lower_char schema_load
    (mkNode EmptyString (RawStr raw) None) =
    Got (low f1 ++ " " ++ low f2 ++ " " ++ low f3 ++ " " ++ low f4)%string
        (mkNode EmptyString (RawDict (to_dict m)) (Some m)).
Proof.
  intros Hp1 F1 S1 F2 S2 F3 S3 F4 Hp2 raw m.
  split; [apply marketplace_of_four_fields; assumption|].
  unfold get_image_name. simpl truthy. cbv iota.
  unfold raw. rewrite marketplace_of_four_fields by assumption. reflexivity.
Qed.

(** X14.  A marketplace parameter made of whitespace only is not taken
    for a missing one: it raises the "Invalid value for the provided
    marketplace parameter" exception, from the getter and from
    [get_image_name] alike, and leaves the schema as it was. *)
Theorem blank_marketplace_is_invalid raw v :
  truthy raw = true ->
  all_chars is_space raw = true ->
  let self := mkNode v (RawStr raw) None in
  marketplace is_space lower_char schema_load self = Failed InvalidMarketplace self /\
  (truthy v = false ->
   get_image_name is_space lower_char schema_load self =
   Failed InvalidMarketplace self).
Proof.
  intros Hraw Hall self.
  assert (Hstrip : strip is_space raw = EmptyString).
  { unfold strip. rewrite <- (string_append_nil_r raw).
    rewrite lstrip_spaces by exact Hall. reflexivity. }
  assert (Hget : marketplace is_space lower_char schema_load self =
                 Failed InvalidMarketplace self).
  { unfold marketplace, self. simpl. rewrite Hraw, Hstrip. reflexivity. }
  split; [exact Hget|].
  intros Hv. unfold get_image_name. change (vhd self) with v.
  rewrite Hv, Hget. reflexivity.
Qed.

(** X15.  A colon in front of three fields is not rejected: the string
    splits into four pieces, the first of them empty, and the marketplace
    has an empty publisher. *)
Theorem leading_colon_gives_empty_publisher f1 s1 f2 s2 f3 v :
  is_space ":"%char = false ->
  is_field sep f1 -> is_run sep s1 ->
  is_field sep f2 -> is_run sep s2 ->
  is_field sep f3 ->
  let raw := (":" ++ f1 ++ s1 ++ f2 ++ s2 ++ f3)%string in
  let m := mkMarketplace EmptyString (low f1) (low f2) (low f3) in
  marketplace is_space lower_char schema_load (mkNode v (RawStr raw) None) =
  Got (Some m) (mkNode v (RawDict (to_dict m)) (Some m)).
Proof.
  intros Hcolon F1 S1 F2 S2 F3 raw m.
  assert (Hrun : is_run sep (low ":")).
  { apply lower_is_run. split; reflexivity. }
  assert (Hstrip : strip is_space raw = raw).
  { assert (Hl : lstrip is_space raw = raw)
      by (unfold raw; simpl; rewrite Hcolon; reflexivity).
    unfold strip. rewrite Hl. unfold raw.
    replace (":" ++ f1 ++ s1 ++ f2 ++ s2 ++ f3)%string
      with ((":" ++ f1 ++ s1 ++ f2 ++ s2) ++ f3 ++ EmptyString)%string
      by (rewrite string_append_nil_r, !string_append_assoc; reflexivity).
    rewrite rstrip_before_field by (try assumption; reflexivity).
    rewrite string_append_nil_r. reflexivity. }
  assert (E3 : split false (low f3) = [low f3]).
  { rewrite <- (string_append_nil_r (low f3)) at 1.
    rewrite (split_field (low f3) EmptyString EmptyString []);
      [|apply lower_is_field; exact F3|reflexivity].
    rewrite string_append_nil_r. reflexivity. }
  assert (E2 : split false (low f2 ++ low s2 ++ low f3 ++ EmptyString) =
               [low f2; low f3]).
  { rewrite (split_field (low f2) _ EmptyString [low f3]);
      [|apply lower_is_field; exact F2|].
    - rewrite string_append_nil_r. reflexivity.
    - rewrite split_run by auto using lower_is_field, lower_is_run.
      rewrite string_append_nil_r, E3. reflexivity. }
  assert (E1 : split false (low f1 ++ low s1 ++ low f2 ++ low s2 ++ low f3 ++ EmptyString) =
               [low f1; low f2; low f3]).
  { rewrite (split_field (low f1) _ EmptyString [low f2; low f3]);
      [|apply lower_is_field; exact F1|].
    - rewrite string_append_nil_r. reflexivity.
    - rewrite split_run by auto using lower_is_field, lower_is_run.
      rewrite E2. reflexivity. }
  unfold marketplace. simpl _marketplace. simpl marketplace_raw. cbv iota.
  change (truthy raw) with true. cbv iota. rewrite Hstrip. unfold raw.
  rewrite <- (string_append_nil_r f3).
  rewrite !lower_append.
  rewrite split_run by auto using lower_is_field, lower_is_run.
  change (low EmptyString) with EmptyString. rewrite E1. reflexivity.
Qed.

(** X16.  Writing and reading agree: for a marketplace whose four fields
    are non-empty, free of colons and whitespace and in lower case,
    [get_image_name] after the setter gives the four fields joined by
    single spaces, and a schema given that string as its marketplace
    parameter reads the same marketplace back. *)
Theorem image_name_round_trip m self v :
  is_space " "%char = true ->
  is_field sep (publisher m) -> low (publisher m) = publisher m ->
  is_field sep (offer m) -> low (offer m) = offer m ->
  is_field sep (sku m) -> low (sku m) = sku m ->
  is_field sep (version m) -> low (version m) = version m ->
  truthy (vhd self) = false ->
  let name := (publisher m ++ " " ++ offer m ++ " " ++ sku m ++ " " ++ version m)%string in
  get_image_name is_space lower_char schema_load (set_marketplace (Some m) self) =
    Got name (set_marketplace (Some m) self) /\
  marketplace is_space lower_char schema_load (mkNode v (RawStr name) None) =
    Got (Some m) (mkNode v (RawDict (to_dict m)) (Some m)).
Proof.
  intros Hspace Fp Lp Fo Lo Fs Ls Fv Lv Hvhd name.
  assert (Hrun : is_run sep " ").
  { split; [reflexivity|]. simpl. unfold is_separator. rewrite Hspace.
    rewrite orb_true_r. reflexivity. }
  split.
  - unfold get_image_name, set_marketplace. simpl. rewrite Hvhd. reflexivity.
  - pose proof (marketplace_of_four_fields EmptyString (publisher m) " " (offer m) " "
                  (sku m) " " (version m) EmptyString v
                  eq_refl Fp Hrun Fo Hrun Fs Hrun Fv eq_refl) as H.
    simpl in H. rewrite string_append_nil_r in H.
    rewrite Lp, Lo, Ls, Lv in H. destruct m. exact H.
Qed.

End MarketplaceProperties.

(** ** The further properties at concrete inputs *)

Lemma latin1_lower_keeps_separators c :
  is_separator latin1_is_space (latin1_lower c) = is_separator latin1_is_space c.
Proof. destruct c as [[] [] [] [] [] [] [] []]; reflexivity. Qed.

Lemma retries_within_limit_witness :
  1 <= 10 /\
  within_limit 10 (Waiting AtFindVmcore (mkLocals false 0 2 None)).
Proof.
  split; [lia|].
  apply (retries_within_limit 800 10 (connection 0 ++ none_polls [0; 0])
           [TimerElapsed; TryConnect; NodeClose; FindVmcore; FindIncomplete;
            TimerElapsed; Sleep 5; FindVmcore; FindIncomplete; TimerElapsed;
            Sleep 5; FindVmcore]).
  - lia.
  - reflexivity.
Defined.

Lemma returns_only_when_vmcore_found_witness :
  exists pre listing post l,
    connection 0 ++ poll (ObsNone, 5) ++ scan ObsComplete ++ [Elapsed 10] =
    pre ++ Execute (Some listing) :: post /\
    truthy listing = true /\
    check_kdump_result 800 10 pre =
    Some ([TimerElapsed; TryConnect; NodeClose; FindVmcore; FindIncomplete;
           TimerElapsed; Sleep 5; FindVmcore],
          Waiting AtFindVmcore l).
Proof.
  apply (returns_only_when_vmcore_found 800 10
           (connection 0 ++ poll (ObsNone, 5) ++ scan ObsComplete ++ [Elapsed 10])).
  reflexivity.
Defined.

Lemma console_log_captured_last_witness :
  no_capture [TimerElapsed; TryConnect; LogDebug; CheckInitramfs; TimerElapsed;
              TryConnect; NodeClose; FindVmcore].
Proof.
  apply (proj2 (console_log_captured_last 800 10 reconnect_with_check_returning
                  [TimerElapsed; TryConnect; LogDebug; CheckInitramfs; TimerElapsed;
                   TryConnect; NodeClose; FindVmcore]
                  (Finished Return) eq_refl)).
  reflexivity.
Defined.

Lemma failures_capture_console_log_witness :
  NoVmcoreFound <> SerialConsoleError /\
  exists tr', calls_of (check_kdump_result 800 10 ten_empty_polls) =
              tr' ++ [GetConsoleLog] /\ no_capture tr'.
Proof.
  split; [discriminate|].
  apply (failures_capture_console_log 800 10 ten_empty_polls _ NoVmcoreFound).
  - reflexivity.
  - discriminate.
Defined.

(** The incomplete file is measured at 5MB, the connection drops, and
    after the reconnection nothing is found before the budget is spent:
    the exception reports the 5MB measured before the disconnection. *)
Lemma dump_timeout_reports_latest_size_witness :
  outcome_of
    (check_kdump_result 800 10
       ((connection 0 ++ poll (ObsInProgress (5 * MB), 10) ++ [Execute None] ++
         connection 20 ++ scan ObsNone) ++
        [Elapsed 801; Console true])) =
  Some (Raise (TimeoutToDump (5 * MB))).
Proof.
  pose proof (dump_timeout_reports_latest_size 800 10
                (connection 0 ++ poll (ObsInProgress (5 * MB), 10) ++ [Execute None] ++
                 connection 20 ++ scan ObsNone)
                [TimerElapsed; TryConnect; NodeClose; FindVmcore; FindIncomplete;
                 GetTotalSize incomplete_marker; TimerElapsed; Sleep 5; FindVmcore;
                 LogDebug; TimerElapsed; TryConnect; NodeClose; FindVmcore;
                 FindIncomplete; TimerElapsed]
                (mkLocals false 0 1 (Some (5 * MB))) eq_refl) as [_ Hraise].
  apply (Hraise 801 []). lia.
Defined.

(** Twelve polls, more than the limit, each 1MB larger than the one
    before. *)
Lemma steady_growth_never_stalls_witness :
  exists tr' l',
    check_kdump_result 800 10
      (connection 0 ++
       in_progress_polls
         (map (fun n => (Z.of_nat n * MB, 5 * Z.of_nat n)) (seq 1 12))) =
    Some (tr', Waiting AtFindVmcore l') /\
    retries l' = 0 /\
    saved_dumpfile_size l' = 12 * MB.
Proof.
  apply (steady_growth_never_stalls 800 10 (connection 0)
           [TimerElapsed; TryConnect; NodeClose; FindVmcore]
           (mkLocals false 0 0 None)
           (map (fun n => (Z.of_nat n * MB, 5 * Z.of_nat n)) (seq 1 12))).
  - reflexivity.
  - simpl. unfold MB. lia.
  - repeat constructor; simpl; lia.
  - discriminate.
Defined.

(** After a first sighting of 1MB, nine polls that find nothing or no
    growth in turn, and a tenth that finds the file at 1MB. *)
Lemma retries_count_both_kinds_witness :
  outcome_of
    (check_kdump_result 800 10
       ((connection 0 ++ poll (ObsInProgress MB, 0)) ++
        polls [(ObsNone, 5); (ObsInProgress MB, 10); (ObsNone, 15);
               (ObsInProgress (MB - 1), 20); (ObsNone, 25); (ObsInProgress MB, 30);
               (ObsNone, 35); (ObsInProgress 0, 40); (ObsNone, 45)] ++
        scan (ObsInProgress MB) ++ [Console true])) =
  Some (Raise (VmcoreIncomplete MB)).
Proof.
  apply (retries_count_both_kinds 800 10 (connection 0 ++ poll (ObsInProgress MB, 0))
           [TimerElapsed; TryConnect; NodeClose; FindVmcore; FindIncomplete;
            GetTotalSize incomplete_marker; TimerElapsed; Sleep 5; FindVmcore]
           (mkLocals false MB 0 (Some MB))
           [(ObsNone, 5); (ObsInProgress MB, 10); (ObsNone, 15);
            (ObsInProgress (MB - 1), 20); (ObsNone, 25); (ObsInProgress MB, 30);
            (ObsNone, 35); (ObsInProgress 0, 40); (ObsNone, 45)]
           (ObsInProgress MB) []).
  - reflexivity.
  - repeat constructor; simpl; lia.
  - reflexivity.
  - reflexivity.
Defined.

Lemma chosen_cpu_is_never_skipped_witness :
  in_range (core_count_requirement kdumpcrash_validate_on_cpu32) 64 /\
  trigger_kdump_on_specified_cpu 32 64 =
  RunKdumpTest "taskset -c 32 echo c > /proc/sysrq-trigger".
Proof.
  split.
  - simpl. unfold in_range. simpl. lia.
  - apply (proj1 chosen_cpu_is_never_skipped kdumpcrash_validate_on_cpu32 64).
    unfold in_range. simpl. lia.
Defined.

(** Two regions of Azure that share a storage account name. *)
Lemma storage_account_name_collides_witness :
  get_storage_account_name "12345678-abcd-ef01-2345-6789abcdef01" "southafricanorth" =
  get_storage_account_name "12345678-abcd-ef01-2345-6789abcdef01" "southafricawest".
Proof.
  apply (storage_account_name_collides
           "12345678-abcd-ef01-2345-6789abcdef01" "southafricanorth"
           "12345678-abcd-ef01-2345-6789abcdef01" "southafricawest").
  - simpl. lia.
  - simpl. lia.
  - split; reflexivity.
Defined.

Lemma old_git_ignores_sort_by_witness :
  version_ge (2, 25, 1)%nat (2, 36, 1)%nat = false /\
  tag_command (2, 25, 1)%nat "v:refname" EmptyString =
  tag_command (2, 25, 1)%nat "creatordate" EmptyString.
Proof.
  split; [reflexivity|].
  apply (proj1 (old_git_ignores_sort_by (2, 25, 1)%nat "v:refname" "creatordate"
                  EmptyString eq_refl eq_refl)).
  reflexivity.
Defined.

Lemma selected_tag_is_listed_witness :
  select_tag compile_literal "v" true ["v1.0"; "rc-2"; "v1.1"; "nightly"]%string =
    Tag "v1.1" /\
  In "v1.1"%string ["v1.0"; "rc-2"; "v1.1"; "nightly"]%string.
Proof.
  split; [reflexivity|].
  apply (proj1 (selected_tag_is_listed compile_literal "v" true
                  ["v1.0"; "rc-2"; "v1.1"; "nightly"]%string) "v1.1"%string).
  reflexivity.
Defined.

Lemma marketplace_string_is_parsed_witness :
  marketplace latin1_is_space latin1_lower (fun _ => None)
    (mkNode EmptyString (RawStr "  Canonical:UbuntuServer 18.04-LTS : Latest ") None) =
  Got (Some (mkMarketplace "canonical" "ubuntuserver" "18.04-lts" "latest"))
      (mkNode EmptyString
         (RawDict (to_dict (mkMarketplace "canonical" "ubuntuserver" "18.04-lts" "latest")))
         (Some (mkMarketplace "canonical" "ubuntuserver" "18.04-lts" "latest"))).
Proof.
  apply (proj1 (marketplace_string_is_parsed latin1_is_space latin1_lower (fun _ => None)
                  latin1_lower_keeps_separators
                  "  " "Canonical" ":" "UbuntuServer" " " "18.04-LTS" " : " "Latest" " "
                  EmptyString
                  eq_refl (conj eq_refl eq_refl) (conj eq_refl eq_refl)
                  (conj eq_refl eq_refl) (conj eq_refl eq_refl)
                  (conj eq_refl eq_refl) (conj eq_refl eq_refl)
                  (conj eq_refl eq_refl) eq_refl)).
Defined.

Lemma blank_marketplace_is_invalid_witness :
  marketplace latin1_is_space latin1_lower (fun _ => None)
    (mkNode EmptyString (RawStr "   ") None) =
  Failed InvalidMarketplace (mkNode EmptyString (RawStr "   ") None).
Proof.
  apply (proj1 (blank_marketplace_is_invalid latin1_is_space latin1_lower (fun _ => None)
                  "   " EmptyString eq_refl eq_refl)).
Defined.

Lemma leading_colon_gives_empty_publisher_witness :
  marketplace latin1_is_space latin1_lower (fun _ => None)
    (mkNode EmptyString (RawStr ":UbuntuServer:18.04-LTS:Latest") None) =
  Got (Some (mkMarketplace EmptyString "ubuntuserver" "18.04-lts" "latest"))
      (mkNode EmptyString
         (RawDict (to_dict (mkMarketplace EmptyString "ubuntuserver" "18.04-lts" "latest")))
         (Some (mkMarketplace EmptyString "ubuntuserver" "18.04-lts" "latest"))).
Proof.
  apply (leading_colon_gives_empty_publisher latin1_is_space latin1_lower (fun _ => None)
           latin1_lower_keeps_separators
           "UbuntuServer" ":" "18.04-LTS" ":" "Latest" EmptyString
           eq_refl (conj eq_refl eq_refl) (conj eq_refl eq_refl)
           (conj eq_refl eq_refl) (conj eq_refl eq_refl) (conj eq_refl eq_refl)).
Defined.

Lemma image_name_round_trip_witness :
  marketplace latin1_is_space latin1_lower (fun _ => None)
    (mkNode EmptyString (RawStr "canonical ubuntuserver 18.04-lts latest") None) =
  Got (Some (mkMarketplace "canonical" "ubuntuserver" "18.04-lts" "latest"))
      (mkNode EmptyString
         (RawDict (to_dict (mkMarketplace "canonical" "ubuntuserver" "18.04-lts" "latest")))
         (Some (mkMarketplace "canonical" "ubuntuserver" "18.04-lts" "latest"))).
Proof.
  apply (proj2 (image_name_round_trip latin1_is_space latin1_lower (fun _ => None)
                  latin1_lower_keeps_separators
                  (mkMarketplace "canonical" "ubuntuserver" "18.04-lts" "latest")
                  (mkNode EmptyString RawNone None) EmptyString
                  eq_refl (conj eq_refl eq_refl) eq_refl (conj eq_refl eq_refl) eq_refl
                  (conj eq_refl eq_refl) eq_refl (conj eq_refl eq_refl) eq_refl eq_refl)).
Defined.
